(** * Football ETL: the retrying fetch pipeline of [etl/full_etl.py]

    A shallow embedding of the fetch functions and of the orchestrator.
    Python values received from the API are JSON values, pandas frames are
    lists of flat records, and every effect of the script (HTTP GET, sleep,
    log record, database statement, connection close) is an event appended
    to a trace.  What the outside world answers (HTTP responses, database
    errors) is read from an environment [env], so that every theorem
    quantifies over all behaviours of the API and of the database.

    Modelling boundaries:
    - [exn] stands for instances of Python's [Exception]; interrupts
      ([KeyboardInterrupt], [SystemExit]) are not [Exception]s and are not
      modelled.
    - numbers of seconds are rationals ([Q]); Python computes them in
      floating point.  [time.sleep] raises [ValueError] for a negative
      number, and so does [time_sleep].
    - a response with status 200 carries a body that parses as JSON, and an
      object has pairwise distinct keys, as [json.loads] produces; JSON
      numbers are integers.
    - the configuration is a record: a configuration that lacks a key,
      which raises [KeyError] in the first lines of [main], before the
      [try] block, is not represented.
    - pandas is modelled as far as the script uses it, from its documented
      behaviour: [json_normalize] on arrays of objects, [DataFrame.empty],
      column selection, and [drop_duplicates] with [keep='first']. *)

From Stdlib Require Import List String Ascii ZArith QArith Lia Bool Arith.
Import ListNotations.

Set Warnings "-register-all".
Local Open Scope string_scope.
Local Open Scope list_scope.
Local Open Scope Z_scope.

(** ** Python values *)

Inductive json : Type :=
| JNull
| JBool (b : bool)
| JNum (n : Z)
| JStr (s : string)
| JArr (items : list json)
| JObj (fields : list (string * json)).

(** The exceptions the script can meet.  [OtherError] is any further
    subclass of [Exception], for instance one raised by a database driver. *)
Inductive exn : Type :=
| RequestException (msg : string)
| KeyError (key : string)
| TypeError
| AttributeError
| ValueError (msg : string)
| NotImplementedError
| ZeroDivisionError
| OtherError (name : string).

Inductive outcome (A : Type) : Type :=
| Ret (a : A)
| Raise (e : exn).
Arguments Ret {A} a.
Arguments Raise {A} e.

(** ** Effects *)

Inductive url : Type :=
| TeamsUrl
| MatchesUrl (season : Z)
| TeamUrl (team_id : json).

Definition headers := list (string * string).

(** What [requests.get] does: it answers with a status code and a body, or
    raises [requests.RequestException]. *)
Inductive http_result : Type :=
| Responded (status_code : Z) (body : json)
| Failed (msg : string).

Inductive level : Type := INFO | WARNING | ERROR.

Inductive connection : Type := DuckDB | Snowflake.

Inductive stage : Type := FetchTeams | FetchMatches | FetchAllPlayers.

Inductive message : Type :=
| AttemptFailed (attempt : Z) (status_code : Z) (u : url)
| RequestExceptionMsg (msg : string)
| FailedToFetch (u : url)
| TeamsUpdated
| TeamsNotAvailable
| MatchesUpdated
| MatchesNotAvailable
| AttemptFailedForTeam (attempt : Z) (team_id : json) (status_code : Z)
| RequestExceptionForTeam (team_id : json) (msg : string)
| AllAttemptsFailed (team_id : json)
| Processed (i : Z) (total : Z)
| PlayersUpdated
| TeamsMissingPlayers
| MissingTeamNames (failed_teams : list json)
| Connected (con : connection)
| NoTeamsFetched
| RunComplete
| EtlFailed (e : exn)
| ConnectionClosed
| FailedToClose (e : exn).

(** [Call f] marks the entry into a stage, so that "the function is
    invoked" can be read off the trace; the other events are the effects of
    the script. *)
Inductive event : Type :=
| Call (f : stage)
| HttpGet (u : url) (h : headers)
| Sleep (seconds : Q)
| Log (l : level) (m : message)
| DbConnect (con : connection)
| DbExecute (con : connection) (sql : string)
| DbClose (con : connection).

(** The state of a run is the trace of its events, oldest first. *)
Definition world := list event.

Definition is_get (e : event) : bool :=
  match e with HttpGet _ _ => true | _ => false end.

(** Number of GET requests sent so far. *)
Definition gets (w : world) : nat := List.length (filter is_get w).

Definition M (A : Type) : Type := world -> outcome A * world.

Definition ret {A} (a : A) : M A := fun w => (Ret a, w).

Definition raise {A} (e : exn) : M A := fun w => (Raise e, w).

Definition bind {A B} (m : M A) (f : A -> M B) : M B :=
  fun w =>
    match m w with
    | (Ret a, w1) => f a w1
    | (Raise e, w1) => (Raise e, w1)
    end.

Definition lift {A} (o : outcome A) : M A := fun w => (o, w).

Definition emit (e : event) : M unit := fun w => (Ret tt, w ++ [e]).

Declare Scope py_scope.
Delimit Scope py_scope with py.
Notation "x <- m ;; k" := (bind m (fun x => k))
  (at level 61, m at next level, right associativity) : py_scope.
Notation "m ;; k" := (bind m (fun _ => k))
  (at level 61, right associativity) : py_scope.
Local Open Scope py_scope.

Definition logging (l : level) (m : message) : M unit := emit (Log l m).

(** The [ValueError] of [time.sleep] for a negative number of seconds. *)
Definition negative_sleep : exn :=
  ValueError "sleep length must be non-negative".

(** [time.sleep(seconds)]: a negative number is refused before any
    sleeping. *)
Definition time_sleep (seconds : Q) : M unit :=
  if Qle_bool 0%Q seconds then emit (Sleep seconds)
  else raise negative_sleep.

(** ** The environment of a run *)

Record config : Type := {
  api_token : string;
  requests_per_min : Q;
  retries_per_team : Z;
  sleep_between_retries : Q;
  database_type : string;
  duckdb_path : string
}.

Record env : Type := {
  (* answer to the GET sent after [n] earlier ones *)
  http_get : nat -> url -> http_result;
  (* opening a connection, running a statement, closing: [Some e] raises *)
  db_connect : connection -> option exn;
  db_execute : connection -> string -> option exn;
  db_close : connection -> option exn;
  (* the result of reading and parsing the YAML file *)
  config_file : outcome config
}.


(** ** Python operations on JSON values *)

Definition is_nil {A} (l : list A) : bool :=
  match l with [] => true | _ :: _ => false end.

Definition is_dict (v : json) : bool :=
  match v with JObj _ => true | _ => false end.

(** [d.get(k)]: the value stored under [k], if any. *)
Fixpoint dict_get (k : string) (d : list (string * json)) : option json :=
  match d with
  | [] => None
  | (k', v) :: d' => if (k' =? k)%string then Some v else dict_get k d'
  end.

(** [d[k] = v]: an existing key keeps its place, a new one goes last. *)
Fixpoint dict_set (k : string) (v : json) (d : list (string * json))
    : list (string * json) :=
  match d with
  | [] => [(k, v)]
  | (k', v') :: d' =>
      if (k' =? k)%string then (k, v) :: d' else (k', v') :: dict_set k v d'
  end.

(** Truth value of an object in a condition. *)
Definition truthy (v : json) : bool :=
  match v with
  | JNull => false
  | JBool b => b
  | JNum n => negb (n =? 0)
  | JStr s => negb (s =? "")%string
  | JArr items => negb (is_nil items)
  | JObj fields => negb (is_nil fields)
  end.

Definition is_str (k : string) (v : json) : bool :=
  match v with JStr s => (s =? k)%string | _ => false end.

(** [k in v] for a string [k]: a key of a dict, an element of a list, a
    substring of a string; other values are not containers. *)
Definition py_in (k : string) (v : json) : outcome bool :=
  match v with
  | JObj fields =>
      Ret (match dict_get k fields with Some _ => true | None => false end)
  | JArr items => Ret (existsb (is_str k) items)
  | JStr s =>
      Ret (match String.index 0 k s with Some _ => true | None => false end)
  | _ => Raise TypeError
  end.

(** [v[k]] for a string [k]: only a dict can be indexed by a string. *)
Definition py_getitem (v : json) (k : string) : outcome json :=
  match v with
  | JObj fields =>
      match dict_get k fields with
      | Some x => Ret x
      | None => Raise (KeyError k)
      end
  | _ => Raise TypeError
  end.

Definition lower_ascii (c : ascii) : ascii :=
  let n := nat_of_ascii c in
  if ((65 <=? n) && (n <=? 90))%nat then ascii_of_nat (n + 32) else c.

(** [str.lower], on ASCII letters. *)
Fixpoint lower (s : string) : string :=
  match s with
  | EmptyString => EmptyString
  | String c s' => String (lower_ascii c) (lower s')
  end.

(** ** pandas frames

    The frames of the script come from [pd.json_normalize] and go through
    [.empty], [len], [df['id']], [df[...][['id','name']]] and
    [drop_duplicates(subset=['id'])].  A frame is its column labels and its
    records; a record holds the cells that are present, a missing cell
    reads as NaN, for which [JNull] stands. *)

Definition record := list (string * json).

Record frame : Type := {
  columns : list string;
  records : list record
}.

(** [pd.DataFrame()] *)
Definition empty_frame : frame := {| columns := []; records := [] |}.

(** [df.empty]: some axis has length 0. *)
Definition frame_empty (df : frame) : bool :=
  is_nil (columns df) || is_nil (records df).

Definition has_column (c : string) (df : frame) : bool :=
  existsb (String.eqb c) (columns df).

Definition cell (c : string) (r : record) : json :=
  match dict_get c r with Some v => v | None => JNull end.

(** [df[c]] as the sequence of its cells. *)
Definition column (c : string) (df : frame) : outcome (list json) :=
  if has_column c df then Ret (map (cell c) (records df))
  else Raise (KeyError c).

(** The key under which a nested field is flattened. *)
Definition new_key (key_string k : string) : string :=
  if (key_string =? "")%string then k else (key_string ++ "." ++ k)%string.

(** [_normalise_json]: the leaves of a nested dict, under dotted keys. *)
Fixpoint normalise_json (data : json) (key_string : string)
    (normalized_dict : record) : record :=
  match data with
  | JObj fields =>
      (fix items (fs : list (string * json)) (acc : record) : record :=
         match fs with
         | [] => acc
         | (k, v) :: fs' =>
             items fs' (normalise_json v (new_key key_string k) acc)
         end) fields normalized_dict
  | _ => dict_set key_string data normalized_dict
  end.

(** [_normalise_json_ordered]: top-level fields first, then the flattened
    nested ones. *)
Definition normalise_json_ordered (fields : list (string * json)) : record :=
  let top_dict := filter (fun kv => negb (is_dict (snd kv))) fields in
  let nested_dict :=
    normalise_json (JObj (filter (fun kv => is_dict (snd kv)) fields)) "" [] in
  fold_left (fun d kv => dict_set (fst kv) (snd kv) d) nested_dict top_dict.

(** One element of the array given to [json_normalize]: a dict is
    flattened, a scalar gives a record without cells.  An array nested
    directly in the array makes pandas build positional columns, which no
    caller here can consume; the model rejects it. *)
Definition simple_json_normalize (v : json) : outcome record :=
  match v with
  | JObj fields => Ret (normalise_json_ordered fields)
  | JArr _ => Raise (ValueError "nested array")
  | _ => Ret []
  end.

Fixpoint map_outcome {A B} (f : A -> outcome B) (l : list A)
    : outcome (list B) :=
  match l with
  | [] => Ret []
  | a :: l' =>
      match f a with
      | Raise e => Raise e
      | Ret b =>
          match map_outcome f l' with
          | Raise e => Raise e
          | Ret bs => Ret (b :: bs)
          end
      end
  end.

Definition add_label (cols : list string) (c : string) : list string :=
  if existsb (String.eqb c) cols then cols else cols ++ [c].

(** Column labels: the keys of the records, in order of first appearance. *)
Definition labels (rs : list record) : list string :=
  fold_left (fun cols r => fold_left add_label (map fst r) cols) rs [].

Definition frame_of (rs : list record) : frame :=
  {| columns := labels rs; records := rs |}.

(** [pd.json_normalize(data)] *)
Definition json_normalize (data : json) : outcome frame :=
  match data with
  | JArr [] => Ret empty_frame
  | JArr items =>
      match map_outcome simple_json_normalize items with
      | Ret rs => Ret (frame_of rs)
      | Raise e => Raise e
      end
  | JObj fields => Ret (frame_of [normalise_json_ordered fields])
  | _ => Raise NotImplementedError
  end.

(** The value by which [drop_duplicates] compares two cells: missing
    values are all alike, [True] is [1], and a list or dict cannot be
    hashed. *)
Inductive dedupe_key : Type :=
| KNa
| KNum (n : Z)
| KStr (s : string).

Definition key_of (v : json) : outcome dedupe_key :=
  match v with
  | JNull => Ret KNa
  | JBool b => Ret (KNum (if b then 1 else 0))
  | JNum n => Ret (KNum n)
  | JStr s => Ret (KStr s)
  | JArr _ | JObj _ => Raise TypeError
  end.

Definition key_eqb (a b : dedupe_key) : bool :=
  match a, b with
  | KNa, KNa => true
  | KNum n, KNum m => n =? m
  | KStr s, KStr t => (s =? t)%string
  | _, _ => false
  end.

(** Keep a row when its key was not seen in an earlier row. *)
Fixpoint keep_first (seen : list dedupe_key)
    (rows : list (dedupe_key * record)) : list record :=
  match rows with
  | [] => []
  | (k, r) :: rows' =>
      if existsb (key_eqb k) seen then keep_first seen rows'
      else r :: keep_first (k :: seen) rows'
  end.

(** [df.drop_duplicates(subset=[c])], which keeps the first occurrence. *)
Definition drop_duplicates (c : string) (df : frame) : outcome frame :=
  if frame_empty df then Ret df
  else if negb (has_column c df) then Raise (KeyError c)
  else
    match map_outcome key_of (map (cell c) (records df)) with
    | Raise e => Raise e
    | Ret keys =>
        Ret {| columns := columns df;
               records := keep_first [] (combine keys (records df)) |}
    end.

(** The loop [for player in squad: player['team_id'] = team_id]. *)
Fixpoint tag_players (team_id : json) (players : list json)
    : outcome (list json) :=
  match players with
  | [] => Ret []
  | JObj fields :: rest =>
      match tag_players team_id rest with
      | Ret tagged => Ret (JObj (dict_set "team_id" team_id fields) :: tagged)
      | Raise e => Raise e
      end
  | _ :: _ => Raise TypeError
  end.

(** What [fetch_team_players] returns for a 200 response: [.get] exists on
    a dict only; the squad defaults to [[]]; iterating an empty dict or an
    empty string assigns nothing and returns a value that is false in a
    condition, given here as the empty list; any other squad that is not a
    list of dicts raises [TypeError] in the loop. *)
Definition tag_squad (team_id : json) (body : json) : outcome (list json) :=
  match body with
  | JObj fields =>
      match dict_get "squad" fields with
      | None => Ret []
      | Some (JArr players) => tag_players team_id players
      | Some (JObj []) => Ret []
      | Some (JStr EmptyString) => Ret []
      | Some _ => Raise TypeError
      end
  | _ => Raise AttributeError
  end.

(** ** The script, run against an environment *)

Section Run.

Variable E : env.

Definition requests_get (u : url) (h : headers) : M http_result :=
  fun w => (Ret (http_get E (gets w) u), w ++ [HttpGet u h]).

(** [con.execute(sql)]; with Snowflake, [con.cursor().execute(sql)]. *)
Definition con_execute (con : connection) (sql : string) : M unit :=
  fun w =>
    match db_execute E con sql with
    | None => (Ret tt, w ++ [DbExecute con sql])
    | Some e => (Raise e, w ++ [DbExecute con sql])
    end.

(** The two branches on [db_type]; any other value writes nothing. *)
Definition db_write (con : connection) (db_type sql : string) : M unit :=
  if (db_type =? "duckdb")%string then con_execute con sql
  else if (db_type =? "snowflake")%string then con_execute con sql
  else ret tt.

Definition load_config : M config := lift (config_file E).

Definition connect (con : connection) : M connection :=
  fun w =>
    match db_connect E con with
    | None => (Ret con, w ++ [DbConnect con; Log INFO (Connected con)])
    | Some e => (Raise e, w)
    end.

Definition get_db_connection (cfg : config) : M connection :=
  let db_type := lower (database_type cfg) in
  if (db_type =? "duckdb")%string then connect DuckDB
  else if (db_type =? "snowflake")%string then connect Snowflake
  else raise (ValueError "Unsupported database type").

(** *** [fetch_json] *)

Fixpoint fetch_json_loop (u : url) (h : headers) (sleep_between : Q)
    (remaining : nat) (attempt : Z) : M json :=
  match remaining with
  | O => logging ERROR (FailedToFetch u) ;; ret JNull
  | S k =>
      resp <- requests_get u h ;;
      match resp with
      | Responded status_code body =>
          if status_code =? 200 then ret body
          else
            logging WARNING (AttemptFailed (attempt + 1) status_code u) ;;
            time_sleep sleep_between ;;
            fetch_json_loop u h sleep_between k (attempt + 1)
      | Failed msg =>
          logging ERROR (RequestExceptionMsg msg) ;;
          time_sleep sleep_between ;;
          fetch_json_loop u h sleep_between k (attempt + 1)
      end
  end.

(** [range(retries)] is empty when [retries <= 0].  The value [None] that
    ends an exhausted fetch is [JNull]. *)
Definition fetch_json (u : url) (h : headers) (retries : Z)
    (sleep_between : Q) : M json :=
  fetch_json_loop u h sleep_between (Z.to_nat retries) 0.

(** [data and k in data] *)
Definition present (k : string) (data : json) : outcome bool :=
  if truthy data then py_in k data else Ret false.

(** *** [fetch_teams] and [fetch_matches] *)

Definition fetch_teams (h : headers) (con : connection) (db_type : string)
    : M frame :=
  emit (Call FetchTeams) ;;
  data <- fetch_json TeamsUrl h 3 2%Q ;;
  ok <- lift (present "teams" data) ;;
  if ok : bool then
    teams <- lift (py_getitem data "teams") ;;
    df_teams <- lift (json_normalize teams) ;;
    db_write con db_type
      "CREATE OR REPLACE TABLE teams AS SELECT * FROM df_teams" ;;
    logging INFO TeamsUpdated ;;
    ret df_teams
  else
    logging ERROR TeamsNotAvailable ;;
    ret empty_frame.

Definition fetch_matches (h : headers) (con : connection) (db_type : string)
    (season : Z) : M frame :=
  emit (Call FetchMatches) ;;
  data <- fetch_json (MatchesUrl season) h 3 2%Q ;;
  ok <- lift (present "matches" data) ;;
  if ok : bool then
    matches <- lift (py_getitem data "matches") ;;
    df_matches <- lift (json_normalize matches) ;;
    db_write con db_type
      "CREATE OR REPLACE TABLE matches AS SELECT * FROM df_matches" ;;
    logging INFO MatchesUpdated ;;
    ret df_matches
  else
    logging ERROR MatchesNotAvailable ;;
    ret empty_frame.

(** *** [fetch_team_players] *)

Fixpoint fetch_team_players_loop (team_id : json) (h : headers)
    (sleep_between : Q) (remaining : nat) (attempt : Z) : M (list json) :=
  match remaining with
  | O => logging WARNING (AllAttemptsFailed team_id) ;; ret []
  | S k =>
      resp <- requests_get (TeamUrl team_id) h ;;
      match resp with
      | Responded status_code body =>
          if status_code =? 200 then lift (tag_squad team_id body)
          else
            logging WARNING
              (AttemptFailedForTeam (attempt + 1) team_id status_code) ;;
            time_sleep sleep_between ;;
            fetch_team_players_loop team_id h sleep_between k (attempt + 1)
      | Failed msg =>
          logging ERROR (RequestExceptionForTeam team_id msg) ;;
          time_sleep sleep_between ;;
          fetch_team_players_loop team_id h sleep_between k (attempt + 1)
      end
  end.

Definition fetch_team_players (team_id : json) (h : headers) (retries : Z)
    (sleep_between : Q) : M (list json) :=
  fetch_team_players_loop team_id h sleep_between (Z.to_nat retries) 0.

(** *** [fetch_all_players] *)

(** The [for] loop over [df_teams['id']]; [i] is the [enumerate] counter
    and [total] is [len(df_teams)]. *)
Fixpoint players_loop (ids : list json) (i total : Z) (h : headers)
    (retries : Z) (sleep_between sleep_between_calls : Q)
    (all_players failed_teams : list json) : M (list json * list json) :=
  match ids with
  | [] => ret (all_players, failed_teams)
  | team_id :: rest =>
      players <- fetch_team_players team_id h retries sleep_between ;;
      let acc :=
        if negb (is_nil players) then (all_players ++ players, failed_teams)
        else (all_players, failed_teams ++ [team_id]) in
      logging INFO (Processed i total) ;;
      time_sleep sleep_between_calls ;;
      players_loop rest (i + 1) total h retries sleep_between
        sleep_between_calls (fst acc) (snd acc)
  end.

(** The closing report, [df_teams[...][['id','name']]], needs both
    columns. *)
Definition report_missing (df_teams : frame) (failed_teams : list json)
    : M unit :=
  if is_nil failed_teams then ret tt
  else if negb (has_column "id" df_teams) then raise (KeyError "id")
  else if negb (has_column "name" df_teams) then raise (KeyError "name")
  else
    logging WARNING TeamsMissingPlayers ;;
    logging WARNING (MissingTeamNames failed_teams).

(** The function returns [df_players]; the second component is the local
    list [failed_teams] as it stands at the [return]. *)
Definition fetch_all_players (df_teams : frame) (h : headers)
    (con : connection) (db_type : string) (requests_per_min : Q)
    (retries : Z) (sleep_between : Q) : M (frame * list json) :=
  emit (Call FetchAllPlayers) ;;
  if Qeq_bool requests_per_min 0 then raise ZeroDivisionError
  else
    let sleep_between_calls := (60 / requests_per_min)%Q in
    ids <- lift (column "id" df_teams) ;;
    acc <- players_loop ids 1 (Z.of_nat (List.length (records df_teams))) h
             retries sleep_between sleep_between_calls [] [] ;;
    df <- lift (json_normalize (JArr (fst acc))) ;;
    df_players <- lift (drop_duplicates "id" df) ;;
    db_write con db_type
      "CREATE OR REPLACE TABLE players AS SELECT * FROM df_players" ;;
    logging INFO PlayersUpdated ;;
    report_missing df_teams (snd acc) ;;
    ret (df_players, snd acc).

(** *** [main] *)

(** The statements of the [try] block after the connection is made. *)
Definition etl_steps (cfg : config) (h : headers) (con : connection)
    : M unit :=
  let db_type := lower (database_type cfg) in
  df_teams <- fetch_teams h con db_type ;;
  if frame_empty df_teams then logging ERROR NoTeamsFetched
  else
    df_matches <- fetch_matches h con db_type 2025 ;;
    df_players <- fetch_all_players df_teams h con db_type
                    (requests_per_min cfg) (retries_per_team cfg)
                    (sleep_between_retries cfg) ;;
    logging INFO RunComplete.

(** [except Exception as e]: the error is logged and the run goes on to
    the [finally] block. *)
Definition except_log (r : outcome unit * world) : world :=
  match r with
  | (Ret _, w) => w
  | (Raise e, w) => w ++ [Log ERROR (EtlFailed e)]
  end.

(** The [try]/[except] part of [main]: the value of [con] when the
    [finally] block starts, and the state reached. *)
Definition try_block (cfg : config) (h : headers)
    : world -> option connection * world :=
  fun w =>
    match get_db_connection cfg w with
    | (Raise e, w1) => (None, except_log (Raise e, w1))
    | (Ret con, w1) => (Some con, except_log (etl_steps cfg h con w1))
    end.

(** The [finally] block. *)
Definition finally_block (con : option connection) : M unit :=
  match con with
  | None => ret tt
  | Some c =>
      emit (DbClose c) ;;
      match db_close E c with
      | None => logging INFO ConnectionClosed
      | Some e => logging WARNING (FailedToClose e)
      end
  end.

Definition main (config_dict : option config) : M unit :=
  cfg <- match config_dict with
         | None => load_config
         | Some c => ret c
         end ;;
  let h := [("X-Auth-Token", api_token cfg)] in
  fun w =>
    let (con, w1) := try_block cfg h w in
    finally_block con w1.

End Run.

(** ** Predicates of the statements *)

(** An attempt fails when the status is not 200 or the request raises. *)
Definition attempt_fails (r : http_result) : Prop :=
  match r with
  | Responded status_code _ => status_code <> 200
  | Failed _ => True
  end.

(** Every GET among the events [new] is the request [u] with headers [h]. *)
Definition gets_only (u : url) (h : headers) (new : list event) : Prop :=
  Forall (fun e => is_get e = true -> e = HttpGet u h) new.


(** ** Sample environments *)

(** A database that never raises. *)
Definition db_fine (http : nat -> url -> http_result) : env :=
  {| http_get := http;
     db_connect := fun _ => None;
     db_execute := fun _ _ => None;
     db_close := fun _ => None;
     config_file := Raise (OtherError "FileNotFoundError") |}.

(** The API answers 503 to every request. *)
Definition api_down : env := db_fine (fun _ _ => Responded 503 JNull).

(** The first two requests time out, the later ones answer [body]. *)
Definition api_third_time (body : json) : env :=
  db_fine (fun n _ =>
             if (n <? 2)%nat then Failed "timeout" else Responded 200 body).

(** The squad of a 200 answer is absent or holds no player. *)
Definition no_players (fields : list (string * json)) : Prop :=
  dict_get "squad" fields = None \/ dict_get "squad" fields = Some (JArr []).

(** An answer that brings no player: a failure, or a 200 whose squad is
    absent or empty. *)
Definition empty_or_failed (r : http_result) : Prop :=
  match r with
  | Responded status_code body =>
      status_code = 200 ->
      exists fields, body = JObj fields /\ no_players fields
  | Failed _ => True
  end.

(** The first request times out; every later one is answered 200 with an
    empty squad. *)
Definition api_empty_after_timeout : env :=
  db_fine (fun n _ =>
             match n with
             | O => Failed "timeout"
             | S _ => Responded 200 (JObj [("id", JNum 57); ("squad", JArr [])])
             end).

Definition two_teams : frame :=
  {| columns := ["id"; "name"];
     records := [[("id", JNum 1); ("name", JStr "Arsenal FC")];
                 [("id", JNum 2); ("name", JStr "Aston Villa FC")]] |}.

(** ** Reading a trace *)

(** The pacing sleeps of a trace: the sleeps that directly follow a
    progress record "Processed i/N"; each one is given with its length. *)
Fixpoint pacing_sleeps (w : list event) : list Q :=
  match w with
  | [] => []
  | e :: rest =>
      match e, rest with
      | Log _ (Processed _ _), Sleep s :: _ => s :: pacing_sleeps rest
      | _, _ => pacing_sleeps rest
      end
  end.

Definition is_progress (e : event) : bool :=
  match e with Log _ (Processed _ _) => true | _ => false end.

(** The events of the loop of [fetch_all_players], given the events of
    each team's fetch: every fetch is followed by its progress record and
    by a sleep of [interval] seconds. *)
Fixpoint paced_events (interval : Q) (total i : Z)
    (fetches : list (list event)) : list event :=
  match fetches with
  | [] => []
  | ev :: rest =>
      ev ++ [Log INFO (Processed i total); Sleep interval]
         ++ paced_events interval total (i + 1) rest
  end.

(** [ev] is the events of a call of [fetch_team_players] on [team_id] that
    returned, with or without players. *)
Definition team_fetch (E : env) (h : headers) (retries : Z)
    (sleep_between : Q) (team_id : json) (ev : list event) : Prop :=
  exists w players,
    fetch_team_players E team_id h retries sleep_between w
    = (Ret players, w ++ ev).

(** The [team_id] tags carried by a list of player records. *)
Definition team_tags (players : list json) : list json :=
  flat_map (fun p => match p with
                     | JObj fields =>
                         match dict_get "team_id" fields with
                         | Some t => [t]
                         | None => []
                         end
                     | _ => []
                     end) players.

(** The [team_id] column of a frame. *)
Definition frame_tags (df : frame) : list json :=
  map (cell "team_id") (records df).

(** The identifiers whose fetch returned no player, given the players and
    events of each fetch. *)
Definition failed_of (ids : list json) (results : list (list json * list event))
    : list json :=
  flat_map (fun p => if is_nil (fst (snd p)) then [fst p] else [])
           (combine ids results).

(** [re] is the players and the events of a call of [fetch_team_players]
    on [id] that returned. *)
Definition fetched (E : env) (h : headers) (r : Z) (d : Q) (id : json)
    (re : list json * list event) : Prop :=
  exists w, fetch_team_players E id h r d w = (Ret (fst re), w ++ snd re).

(** A player record tagged with [id]. *)
Definition tagged (id : json) (p : json) : Prop :=
  exists fields, p = JObj fields /\ dict_get "team_id" fields = Some id.

(** Every squad is the same single player, whose id is 7. *)
Definition api_shared_player : env :=
  db_fine (fun _ _ =>
             Responded 200
               (JObj [("squad",
                       JArr [JObj [("id", JNum 7); ("name", JStr "Saka")]])])).

(** Requests are answered in turn by a timeout and by a 200: team 1 has
    one player, every other team an empty squad.  Each team is fetched at
    its second attempt. *)
Definition api_every_other : env :=
  db_fine (fun n u =>
             if Nat.even n then Failed "timeout"
             else match u with
                  | TeamUrl (JNum 1) =>
                      Responded 200
                        (JObj [("squad",
                                JArr [JObj [("id", JNum 7);
                                            ("name", JStr "Saka")]])])
                  | _ => Responded 200 (JObj [("squad", JArr [])])
                  end).

(** The first request is answered with a squad of one player; every later
    one times out. *)
Definition api_first_request_only : env :=
  db_fine (fun n _ =>
             match n with
             | O =>
                 Responded 200
                   (JObj [("squad", JArr [JObj [("id", JNum 7)]])])
             | S _ => Failed "timeout"
             end).

(** A teams frame that lists the same team twice. *)
Definition same_team_twice : frame :=
  {| columns := ["id"; "name"];
     records := [[("id", JNum 1); ("name", JStr "Arsenal FC")];
                 [("id", JNum 1); ("name", JStr "Arsenal FC")]] |}.

(** ** Well-formed answers *)






(** The team answers 200 with ["squad": null]. *)
Definition api_null_squad : env :=
  db_fine (fun _ _ => Responded 200 (JObj [("id", JNum 57); ("squad", JNull)])).

(** Every squad is one player without an [id]. *)
Definition api_players_without_id : env :=
  db_fine (fun _ _ =>
             Responded 200 (JObj [("squad", JArr [JObj [("name", JStr "Saka")]])])).

(** Team 1 answers with two players, team 2 never answers. *)
Definition api_one_team_down : env :=
  db_fine (fun _ u =>
             match u with
             | TeamUrl (JNum 1) =>
                 Responded 200
                   (JObj [("squad",
                           JArr [JObj [("id", JNum 7); ("name", JStr "Saka")];
                                 JObj [("id", JNum 8); ("name", JStr "Rice")]])])
             | _ => Failed "timeout"
             end).

(** ** Deduplication, as the specification words it

    A row is kept exactly when no earlier row of the input, kept or not,
    has its key value; [earlier] is the keys of all the rows before. *)
Fixpoint first_occurrences (earlier : list dedupe_key)
    (rows : list (dedupe_key * record)) : list record :=
  match rows with
  | [] => []
  | (k, r) :: rest =>
      (if existsb (key_eqb k) earlier then [] else [r])
        ++ first_occurrences (earlier ++ [k]) rest
  end.


(** ** Reading the trace of [main] *)

Definition is_close (e : event) : bool :=
  match e with DbClose _ => true | _ => false end.

Definition is_connect (e : event) : bool :=
  match e with DbConnect _ => true | _ => false end.

(** Number of times a connection was closed, and was acquired. *)
Definition closes (w : list event) : nat := List.length (filter is_close w).

Definition connects (w : list event) : nat :=
  List.length (filter is_connect w).

(** Events that any step of the run may add: log records, sleeps and
    database statements. *)
Definition plain (e : event) : bool :=
  match e with
  | Log _ _ | Sleep _ | DbExecute _ _ => true
  | _ => false
  end.

(** The computation [m] extends the trace, whatever its outcome, with
    events that all satisfy [P]. *)
Definition emits (P : event -> Prop) {A} (m : M A) : Prop :=
  forall w, exists ev, snd (m w) = w ++ ev /\ Forall P ev.

(** Neither acquires nor releases a connection. *)
Definition keeps_connection (e : event) : Prop :=
  is_close e = false /\ is_connect e = false.

(** An event of the teams stage: no entry into a later stage, and no
    request other than the teams request. *)
Definition teams_stage (e : event) : Prop :=
  e <> Call FetchMatches /\ e <> Call FetchAllPlayers
  /\ forall u h, e = HttpGet u h -> u = TeamsUrl.

(** The database rejects every statement; closing raises too. *)
Definition db_broken (http : nat -> url -> http_result) : env :=
  {| http_get := http;
     db_connect := fun _ => None;
     db_execute := fun _ _ => Some (OtherError "duckdb.Error");
     db_close := fun _ => Some (OtherError "duckdb.ConnectionException");
     config_file := Raise (OtherError "FileNotFoundError") |}.

Definition one_team_body : json :=
  JObj [("teams", JArr [JObj [("id", JNum 1); ("name", JStr "Arsenal FC")]])].

Definition sample_config : config :=
  {| api_token := "TEST_TOKEN";
     requests_per_min := 10;
     retries_per_team := 1;
     sleep_between_retries := 0;
     database_type := "duckdb";
     duckdb_path := "tmp.duckdb" |}.

(** The scenario of the specification: two teams, the matches fetch
    fails, team 1 has two players, team 2 never answers. *)
Definition api_scenario : env :=
  db_fine (fun _ u =>
             match u with
             | TeamsUrl =>
                 Responded 200
                   (JObj [("teams",
                           JArr [JObj [("id", JNum 1);
                                       ("name", JStr "Arsenal FC")];
                                 JObj [("id", JNum 2);
                                       ("name", JStr "Aston Villa FC")]])])
             | MatchesUrl _ => Responded 500 JNull
             | TeamUrl (JNum 1) =>
                 Responded 200
                   (JObj [("squad",
                           JArr [JObj [("id", JNum 7); ("name", JStr "Saka")];
                                 JObj [("id", JNum 8); ("name", JStr "Rice")]])])
             | TeamUrl _ => Failed "timeout"
             end).

Definition test_headers : headers := [("X-Auth-Token", "TEST_TOKEN")].

Definition scenario_connected : world :=
  [DbConnect DuckDB; Log INFO (Connected DuckDB)].

Definition scenario_teams_fetched : world :=
  snd (fetch_teams api_scenario test_headers DuckDB "duckdb"
         scenario_connected).

Definition scenario_matches_fetched : world :=
  snd (fetch_matches api_scenario test_headers DuckDB "duckdb" 2025
         scenario_teams_fetched).

(** ** Further readings of a trace *)

(** The lengths of the sleeps of a trace, in order. *)
Definition sleeps (w : list event) : list Q :=
  flat_map (fun e => match e with Sleep s => [s] | _ => [] end) w.

(** The stages entered, in order. *)
Definition stages (w : list event) : list stage :=
  flat_map (fun e => match e with Call f => [f] | _ => [] end) w.

(** The database statements run, each with its connection, in order. *)
Definition statements (w : list event) : list (connection * string) :=
  flat_map (fun e => match e with
                     | DbExecute con sql => [(con, sql)]
                     | _ => []
                     end) w.

(** The log records of a trace, in order. *)
Definition logged (w : list event) : list message :=
  flat_map (fun e => match e with Log _ m => [m] | _ => [] end) w.

(** [t] is the player [p] after [player['team_id'] = id]: the tag is set,
    every other field reads as before. *)
Definition retagged (id : json) (p t : json) : Prop :=
  exists f f',
    p = JObj f /\ t = JObj f'
    /\ dict_get "team_id" f' = Some id
    /\ forall k, k <> "team_id" -> dict_get k f' = dict_get k f.

(** Team 9 is answered, at the second request, with two players, one of
    which already carries a [team_id]. *)
Definition api_retry_then_squad : env :=
  db_fine (fun n _ =>
             match n with
             | O => Responded 429 JNull
             | S _ =>
                 Responded 200
                   (JObj [("squad",
                           JArr [JObj [("id", JNum 7); ("team_id", JNum 0)];
                                 JObj [("id", JNum 8)]])])
             end).

(** The records that the fetch functions write; the others are written by
    [get_db_connection] and [main]. *)
Definition inner_log (m : message) : bool :=
  match m with
  | Connected _ | NoTeamsFetched | RunComplete | EtlFailed _
  | ConnectionClosed | FailedToClose _ => false
  | _ => true
  end.

Definition teams_sql : string :=
  "CREATE OR REPLACE TABLE teams AS SELECT * FROM df_teams".

Definition matches_sql : string :=
  "CREATE OR REPLACE TABLE matches AS SELECT * FROM df_matches".

Definition players_sql : string :=
  "CREATE OR REPLACE TABLE players AS SELECT * FROM df_players".

(** [db_type] is one of the two values for which the fetch functions
    write their table. *)
Definition writes_table (db_type : string) : bool :=
  ((db_type =? "duckdb") || (db_type =? "snowflake"))%string.

(** The computation [m] extends the trace, whatever its outcome, with at
    most [n] GET requests. *)
Definition sends_at_most (n : nat) {A} (m : M A) : Prop :=
  forall w, exists ev, snd (m w) = w ++ ev /\ (gets ev <= n)%nat.

(** The records that close a call of [fetch_all_players]. *)
Definition closing_report (failed_teams : list json) : list event :=
  Log INFO PlayersUpdated
    :: (if is_nil failed_teams then []
        else [Log WARNING TeamsMissingPlayers;
              Log WARNING (MissingTeamNames failed_teams)]).

(** The identifiers of [ids] that are flagged in [flags], in order. *)
Definition flagged (ids : list json) (flags : list bool) : list json :=
  map fst (filter snd (combine ids flags)).


(** The rows that [json_normalize] makes of a list of objects: each
    object flattened, in order. *)
Definition flattened (items : list json) (rs : list record) : Prop :=
  Forall2 (fun t r => exists f, t = JObj f /\ r = normalise_json_ordered f)
    items rs.

(** What the API must do for [fetch_json], called with the defaults of
    [fetch_teams] and [fetch_matches] (three attempts), to bring a body:
    the [k]-th request is the first to be answered 200. *)
Definition answered_at (E : env) (u : url) (w : world) (k : Z) (body : json)
    : Prop :=
  1 <= k <= 3
  /\ (forall i, (i < Z.to_nat (k - 1))%nat ->
                attempt_fails (http_get E (gets w + i) u))
  /\ http_get E (gets w + Z.to_nat (k - 1)) u = Responded 200 body.

(** The three requests all fail. *)
Definition never_answered (E : env) (u : url) (w : world) : Prop :=
  forall i, (i < 3)%nat -> attempt_fails (http_get E (gets w + i) u).

(** The season's matches are served; nothing else is. *)
Definition api_matches_only : env :=
  db_fine (fun _ u =>
             match u with
             | MatchesUrl _ =>
                 Responded 200
                   (JObj [("matches",
                           JArr [JObj [("id", JNum 100);
                                       ("score",
                                        JObj [("winner", JStr "HOME_TEAM")])]])])
             | _ => Responded 404 (JObj [("message", JStr "not found")])
             end).

(** ** The verdict of a run *)

(** The three records with which [main] tells how the run ended. *)
Definition is_verdict (m : message) : bool :=
  match m with
  | RunComplete | NoTeamsFetched | EtlFailed _ => true
  | _ => false
  end.

Definition verdicts (w : list event) : list message :=
  filter is_verdict (logged w).

(** An event of the body of a fetch function: a request, a sleep, a
    statement, or one of the records of these functions. *)
Definition inner_event (e : event) : Prop :=
  match e with
  | Log _ m => inner_log m = true
  | Call _ | DbConnect _ | DbClose _ => False
  | _ => True
  end.

(** The token in the headers, the three kinds of URL. *)
Definition run_request (cfg : config) (u : url) (h : headers) : Prop :=
  h = [("X-Auth-Token", api_token cfg)]
  /\ (u = TeamsUrl \/ u = MatchesUrl 2025 \/ exists id, u = TeamUrl id).

Definition postgres_config : config :=
  {| api_token := "TEST_TOKEN";
     requests_per_min := 10;
     retries_per_team := 1;
     sleep_between_retries := 0;
     database_type := "Postgres";
     duckdb_path := "" |}.

Definition upper_case_config : config :=
  {| api_token := "TEST_TOKEN";
     requests_per_min := 10;
     retries_per_team := 1;
     sleep_between_retries := 0;
     database_type := "DuckDB";
     duckdb_path := "tmp.duckdb" |}.

(** An event of a fetch function, its entry included. *)
Definition stage_event (e : event) : Prop :=
  inner_event e \/ exists f, e = Call f.

(** ** Flattened keys *)

(** Induction on a JSON value as [_normalise_json] goes through it: a
    value that is not an object is a leaf; an object is its fields. *)
Fixpoint json_fields_ind (P : json -> Prop)
    (Hleaf : forall v, is_dict v = false -> P v)
    (Hobj : forall fs, Forall (fun kv => P (snd kv)) fs -> P (JObj fs))
    (v : json) {struct v} : P v :=
  match v with
  | JObj fs =>
      Hobj fs
        ((fix fields (l : list (string * json))
            : Forall (fun kv => P (snd kv)) l :=
            match l with
            | [] => Forall_nil _
            | (k, x) :: l' =>
                Forall_cons (k, x) (json_fields_ind P Hleaf Hobj x) (fields l')
            end) fs)
  | JNull => Hleaf JNull eq_refl
  | JBool b => Hleaf (JBool b) eq_refl
  | JNum n => Hleaf (JNum n) eq_refl
  | JStr s => Hleaf (JStr s) eq_refl
  | JArr l => Hleaf (JArr l) eq_refl
  end.

(** The key contains the separator. *)
Fixpoint has_dot (s : string) : bool :=
  match s with
  | EmptyString => false
  | String c s' => (c =? ".")%char || has_dot s'
  end.

(** No nested object of the player sits under the empty key, the one key
    under which [json_normalize] would put its fields at top level. *)
Definition no_empty_key (p : json) : Prop :=
  forall f k v, p = JObj f -> In (k, v) f -> is_dict v = true -> k <> "".

(** The players of the squad of a body are of that kind. *)
Definition squad_keys_ok (body : json) : Prop :=
  forall fields players p,
    body = JObj fields ->
    dict_get "squad" fields = Some (JArr players) ->
    In p players -> no_empty_key p.

(** [t] is a player of a squad served for team [id], tagged. *)
Definition from_squad (E : env) (id : json) (t : json) : Prop :=
  exists n fields players f,
    http_get E n (TeamUrl id) = Responded 200 (JObj fields)
    /\ dict_get "squad" fields = Some (JArr players)
    /\ In (JObj f) players
    /\ t = JObj (dict_set "team_id" id f).

(** A player who has a nested field and comes with a [team_id] of the
    payload. *)
Definition nested_player : json :=
  JObj [("id", JNum 7); ("team_id", JNum 0);
        ("contract", JObj [("until", JNum 2027)])].

(** Requests are answered in turn by a timeout and by a 200: the squad of
    team 1 is that player, the squad of every other team is empty. *)
Definition api_nested_player : env :=
  db_fine (fun n u =>
             if Nat.even n then Failed "timeout"
             else match u with
                  | TeamUrl (JNum 1) =>
                      Responded 200 (JObj [("squad", JArr [nested_player])])
                  | _ => Responded 200 (JObj [("squad", JArr [])])
                  end).

(** [id] is the identifier of the team [t] of a payload: its top-level
    [id] field, which is not an object. *)
Definition team_identifier (t : json) (id : json) : Prop :=
  exists f,
    t = JObj f /\ dict_get "id" f = Some id /\ is_dict id = false
    /\ no_empty_key t.

(** Two teams as the API serves them, with a nested area. *)
Definition teams_payload : list json :=
  [JObj [("area", JObj [("id", JNum 2072); ("name", JStr "England")]);
         ("id", JNum 57); ("name", JStr "Arsenal FC")];
   JObj [("area", JObj [("id", JNum 2072); ("name", JStr "England")]);
         ("id", JNum 58); ("name", JStr "Aston Villa FC")]].

Definition api_teams_payload : env :=
  db_fine (fun _ _ => Responded 200 (JObj [("count", JNum 2);
                                          ("teams", JArr teams_payload)])).
(** * Properties *)

Lemma gets_app (w1 w2 : world) : gets (w1 ++ w2) = (gets w1 + gets w2)%nat.
Proof. unfold gets. now rewrite filter_app, length_app. Qed.

Lemma gets_only_app u h (l1 l2 : list event) :
  gets_only u h l1 -> gets_only u h l2 -> gets_only u h (l1 ++ l2).
Proof. unfold gets_only. intros. now apply Forall_app. Qed.

Lemma status_not_200 (s : Z) : s <> 200 -> (s =? 200) = false.
Proof. intro H. now apply Z.eqb_neq. Qed.

(** ** Computations that extend the trace *)

Lemma emits_ret P {A} (a : A) : emits P (ret a).
Proof. intro w. exists []. now rewrite app_nil_r. Qed.

Lemma emits_raise P {A} (e : exn) : emits P (@raise A e).
Proof. intro w. exists []. now rewrite app_nil_r. Qed.

Lemma emits_lift P {A} (o : outcome A) : emits P (lift o).
Proof. intro w. exists []. now rewrite app_nil_r. Qed.

Lemma emits_emit (P : event -> Prop) e : P e -> emits P (emit e).
Proof. intros He w. exists [e]. split; [reflexivity | now constructor]. Qed.

Lemma emits_bind P {A B} (m : M A) (f : A -> M B) :
  emits P m -> (forall a, emits P (f a)) -> emits P (bind m f).
Proof.
  intros Hm Hf w. destruct (Hm w) as (ev & Hev & HP). unfold bind.
  destruct (m w) as [[a | e] w1]; cbn [snd] in Hev; subst w1.
  - destruct (Hf a (w ++ ev)) as (ev' & Hev' & HP').
    exists (ev ++ ev'). rewrite Hev', app_assoc.
    split; [reflexivity | now apply Forall_app].
  - now exists ev.
Qed.

(** ** [time.sleep] *)

Lemma Qle_bool_false (x y : Q) : Qle_bool x y = false -> (y < x)%Q.
Proof.
  intro H. apply Qnot_le_lt. intro Hle. apply Qle_bool_iff in Hle.
  congruence.
Qed.

Lemma Qle_bool_negative (s : Q) : (s < 0)%Q -> Qle_bool 0 s = false.
Proof.
  intro H. destruct (Qle_bool 0 s) eqn:Hs; [| reflexivity].
  apply Qle_bool_iff in Hs. now apply Qlt_not_le in H.
Qed.

(** ** [fetch_json] *)

(** One turn of the retry loop. *)
Lemma fetch_json_loop_step E u h d k a w :
  fetch_json_loop E u h d (S k) a w =
  match http_get E (gets w) u with
  | Responded s body =>
      if s =? 200 then (Ret body, w ++ [HttpGet u h])
      else if Qle_bool 0 d
           then fetch_json_loop E u h d k (a + 1)
                  (w ++ [HttpGet u h; Log WARNING (AttemptFailed (a + 1) s u);
                         Sleep d])
           else (Raise negative_sleep,
                 w ++ [HttpGet u h; Log WARNING (AttemptFailed (a + 1) s u)])
  | Failed msg =>
      if Qle_bool 0 d
      then fetch_json_loop E u h d k (a + 1)
             (w ++ [HttpGet u h; Log ERROR (RequestExceptionMsg msg); Sleep d])
      else (Raise negative_sleep,
            w ++ [HttpGet u h; Log ERROR (RequestExceptionMsg msg)])
  end.
Proof.
  cbn [fetch_json_loop]. unfold bind at 1, requests_get.
  destruct (http_get E (gets w) u) as [s body | msg].
  - destruct (s =? 200); [reflexivity |].
    unfold bind, logging, time_sleep, emit, raise.
    destruct (Qle_bool 0 d); now rewrite <- !app_assoc.
  - unfold bind, logging, time_sleep, emit, raise.
    destruct (Qle_bool 0 d); now rewrite <- !app_assoc.
Qed.

(** One turn when the sleep is accepted: a failed attempt is followed by
    the sleep and the next attempt. *)
Lemma fetch_json_loop_retry E u h d k a w :
  (0 <= d)%Q ->
  fetch_json_loop E u h d (S k) a w =
  match http_get E (gets w) u with
  | Responded s body =>
      if s =? 200 then (Ret body, w ++ [HttpGet u h])
      else fetch_json_loop E u h d k (a + 1)
             (w ++ [HttpGet u h; Log WARNING (AttemptFailed (a + 1) s u);
                    Sleep d])
  | Failed msg =>
      fetch_json_loop E u h d k (a + 1)
        (w ++ [HttpGet u h; Log ERROR (RequestExceptionMsg msg); Sleep d])
  end.
Proof.
  intro Hd. apply Qle_bool_iff in Hd. rewrite fetch_json_loop_step, Hd.
  reflexivity.
Qed.

Lemma fetch_json_loop_exhausted E u h d :
  (0 <= d)%Q ->
  forall k a w,
    (forall i, (i < k)%nat -> attempt_fails (http_get E (gets w + i) u)) ->
    exists new,
      fetch_json_loop E u h d k a w = (Ret JNull, w ++ new)
      /\ gets new = k /\ gets_only u h new.
Proof.
  intro Hd. induction k as [| k IH]; intros a w Hfail.
  - exists [Log ERROR (FailedToFetch u)]. repeat split.
    repeat constructor; discriminate.
  - rewrite (fetch_json_loop_retry E u h d k a w Hd).
    pose proof (Hfail 0%nat ltac:(lia)) as H0.
    rewrite Nat.add_0_r in H0.
    assert (Hnext : forall m,
      exists new,
        fetch_json_loop E u h d k (a + 1)
          (w ++ [HttpGet u h; Log (fst m) (snd m); Sleep d])
        = (Ret JNull, (w ++ [HttpGet u h; Log (fst m) (snd m); Sleep d])
                        ++ new)
        /\ gets new = k /\ gets_only u h new).
    { intro m. apply IH. intros i Hi.
      rewrite gets_app. cbn [gets filter is_get List.length].
      replace (gets w + 1 + i)%nat with (gets w + S i)%nat by lia.
      apply Hfail. lia. }
    destruct (http_get E (gets w) u) as [s body | msg]; cbn in H0.
    + rewrite (status_not_200 s H0).
      destruct (Hnext (WARNING, AttemptFailed (a + 1) s u))
        as (new & Hrun & Hn & Hg).
      cbn [fst snd] in Hrun. rewrite Hrun, <- app_assoc.
      eexists; split; [reflexivity |]. split.
      * rewrite gets_app. cbn. lia.
      * apply gets_only_app; [| assumption].
        repeat constructor; discriminate.
    + destruct (Hnext (ERROR, RequestExceptionMsg msg))
        as (new & Hrun & Hn & Hg).
      cbn [fst snd] in Hrun. rewrite Hrun, <- app_assoc.
      eexists; split; [reflexivity |]. split.
      * rewrite gets_app. cbn. lia.
      * apply gets_only_app; [| assumption].
        repeat constructor; discriminate.
Qed.

Lemma fetch_json_loop_success E u h d body :
  (0 <= d)%Q ->
  forall j n a w,
    (j < n)%nat ->
    (forall i, (i < j)%nat -> attempt_fails (http_get E (gets w + i) u)) ->
    http_get E (gets w + j) u = Responded 200 body ->
    exists pre,
      fetch_json_loop E u h d n a w = (Ret body, w ++ pre ++ [HttpGet u h])
      /\ gets pre = j /\ gets_only u h pre.
Proof.
  intro Hd.
  induction j as [| j IH]; intros n a w Hlt Hfail Hok;
    (destruct n as [| n]; [lia |]);
    rewrite (fetch_json_loop_retry E u h d n a w Hd).
  - rewrite Nat.add_0_r in Hok. rewrite Hok. cbn.
    exists []. repeat split. constructor.
  - pose proof (Hfail 0%nat ltac:(lia)) as H0.
    rewrite Nat.add_0_r in H0.
    assert (Hnext : forall m,
      exists pre,
        fetch_json_loop E u h d n (a + 1)
          (w ++ [HttpGet u h; Log (fst m) (snd m); Sleep d])
        = (Ret body, (w ++ [HttpGet u h; Log (fst m) (snd m); Sleep d])
                       ++ pre ++ [HttpGet u h])
        /\ gets pre = j /\ gets_only u h pre).
    { intro m. apply IH; [lia | |].
      - intros i Hi. rewrite gets_app. cbn [gets filter is_get List.length].
        replace (gets w + 1 + i)%nat with (gets w + S i)%nat by lia.
        apply Hfail. lia.
      - rewrite gets_app. cbn [gets filter is_get List.length].
        replace (gets w + 1 + j)%nat with (gets w + S j)%nat by lia.
        exact Hok. }
    destruct (http_get E (gets w) u) as [s b | msg]; cbn in H0.
    + rewrite (status_not_200 s H0).
      destruct (Hnext (WARNING, AttemptFailed (a + 1) s u))
        as (pre & Hrun & Hn & Hg).
      cbn [fst snd] in Hrun. rewrite Hrun, <- app_assoc.
      exists ([HttpGet u h; Log WARNING (AttemptFailed (a + 1) s u); Sleep d]
                ++ pre).
      split; [now rewrite <- app_assoc |]. split.
      * rewrite gets_app. cbn. lia.
      * apply gets_only_app; [| assumption].
        repeat constructor; discriminate.
    + destruct (Hnext (ERROR, RequestExceptionMsg msg))
        as (pre & Hrun & Hn & Hg).
      cbn [fst snd] in Hrun. rewrite Hrun, <- app_assoc.
      exists ([HttpGet u h; Log ERROR (RequestExceptionMsg msg); Sleep d]
                ++ pre).
      split; [now rewrite <- app_assoc |]. split.
      * rewrite gets_app. cbn. lia.
      * apply gets_only_app; [| assumption].
        repeat constructor; discriminate.
Qed.

(** C3. With a retry count [r >= 1], a delay [sleep_between >= 0] and a
    target whose [r] attempts all fail (a status other than 200, or a
    request exception), [fetch_json] returns [None] ([JNull]) after sending
    exactly [r] GET requests, all of them to that target. *)
Theorem fetch_json_exhausted E u h r d w :
  1 <= r ->
  (0 <= d)%Q ->
  (forall i, (i < Z.to_nat r)%nat ->
             attempt_fails (http_get E (gets w + i) u)) ->
  exists new,
    fetch_json E u h r d w = (Ret JNull, w ++ new)
    /\ Z.of_nat (gets new) = r /\ gets_only u h new.
Proof.
  intros Hr Hd Hfail. unfold fetch_json.
  destruct (fetch_json_loop_exhausted E u h d Hd (Z.to_nat r) 0 w Hfail)
    as (new & Hrun & Hn & Hg).
  exists new. repeat split; try assumption. lia.
Qed.

Lemma fetch_json_exhausted_witness :
  exists new,
    fetch_json api_down TeamsUrl [] 3 2%Q [] = (Ret JNull, [] ++ new)
    /\ Z.of_nat (gets new) = 3 /\ gets_only TeamsUrl [] new.
Proof.
  apply fetch_json_exhausted; [lia | unfold Qle; simpl; lia |].
  intros i _. cbn. discriminate.
Defined.

(** C4. With a retry count [r >= 1], a delay [sleep_between >= 0] and a
    target whose attempts before the [k]-th fail and whose [k]-th attempt,
    [k <= r], answers 200, [fetch_json] returns the parsed body after
    exactly [k] GET requests; the successful request is the last event of
    the call. *)
Theorem fetch_json_succeeds E u h r d w k body :
  1 <= r ->
  (0 <= d)%Q ->
  1 <= k <= r ->
  (forall i, (i < Z.to_nat (k - 1))%nat ->
             attempt_fails (http_get E (gets w + i) u)) ->
  http_get E (gets w + Z.to_nat (k - 1)) u = Responded 200 body ->
  exists pre,
    fetch_json E u h r d w = (Ret body, w ++ pre ++ [HttpGet u h])
    /\ Z.of_nat (gets (pre ++ [HttpGet u h])) = k
    /\ gets_only u h pre.
Proof.
  intros Hr Hd Hk Hfail Hok. unfold fetch_json.
  destruct (fetch_json_loop_success E u h d body Hd (Z.to_nat (k - 1))
              (Z.to_nat r) 0 w ltac:(lia) Hfail Hok)
    as (pre & Hrun & Hn & Hg).
  exists pre. repeat split; try assumption.
  rewrite gets_app, Hn. cbn. lia.
Qed.

Lemma fetch_json_succeeds_witness :
  exists pre,
    fetch_json (api_third_time (JObj [("teams", JArr [])])) TeamsUrl [] 3
      2%Q []
    = (Ret (JObj [("teams", JArr [])]), [] ++ pre ++ [HttpGet TeamsUrl []])
    /\ Z.of_nat (gets (pre ++ [HttpGet TeamsUrl []])) = 3
    /\ gets_only TeamsUrl [] pre.
Proof.
  apply fetch_json_succeeds;
    [lia | unfold Qle; simpl; lia | lia | | reflexivity].
  intros i Hi. cbn in Hi. cbn.
  destruct i as [| [| i]]; [exact I | exact I | lia].
Defined.

(** ** [fetch_team_players] *)

Lemma fetch_team_players_loop_step E id h d k a w :
  fetch_team_players_loop E id h d (S k) a w =
  match http_get E (gets w) (TeamUrl id) with
  | Responded s body =>
      if s =? 200 then (tag_squad id body, w ++ [HttpGet (TeamUrl id) h])
      else if Qle_bool 0 d
           then fetch_team_players_loop E id h d k (a + 1)
                  (w ++ [HttpGet (TeamUrl id) h;
                         Log WARNING (AttemptFailedForTeam (a + 1) id s);
                         Sleep d])
           else (Raise negative_sleep,
                 w ++ [HttpGet (TeamUrl id) h;
                       Log WARNING (AttemptFailedForTeam (a + 1) id s)])
  | Failed msg =>
      if Qle_bool 0 d
      then fetch_team_players_loop E id h d k (a + 1)
             (w ++ [HttpGet (TeamUrl id) h;
                    Log ERROR (RequestExceptionForTeam id msg); Sleep d])
      else (Raise negative_sleep,
            w ++ [HttpGet (TeamUrl id) h;
                  Log ERROR (RequestExceptionForTeam id msg)])
  end.
Proof.
  cbn [fetch_team_players_loop]. unfold bind at 1, requests_get.
  destruct (http_get E (gets w) (TeamUrl id)) as [s body | msg].
  - destruct (s =? 200); [reflexivity |].
    unfold bind, logging, time_sleep, emit, raise.
    destruct (Qle_bool 0 d); now rewrite <- !app_assoc.
  - unfold bind, logging, time_sleep, emit, raise.
    destruct (Qle_bool 0 d); now rewrite <- !app_assoc.
Qed.

Lemma fetch_team_players_loop_retry E id h d k a w :
  (0 <= d)%Q ->
  fetch_team_players_loop E id h d (S k) a w =
  match http_get E (gets w) (TeamUrl id) with
  | Responded s body =>
      if s =? 200 then (tag_squad id body, w ++ [HttpGet (TeamUrl id) h])
      else fetch_team_players_loop E id h d k (a + 1)
             (w ++ [HttpGet (TeamUrl id) h;
                    Log WARNING (AttemptFailedForTeam (a + 1) id s);
                    Sleep d])
  | Failed msg =>
      fetch_team_players_loop E id h d k (a + 1)
        (w ++ [HttpGet (TeamUrl id) h;
               Log ERROR (RequestExceptionForTeam id msg); Sleep d])
  end.
Proof.
  intro Hd. apply Qle_bool_iff in Hd.
  rewrite fetch_team_players_loop_step, Hd. reflexivity.
Qed.

Lemma fetch_team_players_loop_exhausted E id h d :
  (0 <= d)%Q ->
  forall k a w,
    (forall i, (i < k)%nat ->
               attempt_fails (http_get E (gets w + i) (TeamUrl id))) ->
    exists new,
      fetch_team_players_loop E id h d k a w = (Ret [], w ++ new)
      /\ gets new = k.
Proof.
  intro Hd. induction k as [| k IH]; intros a w Hfail.
  - exists [Log WARNING (AllAttemptsFailed id)]. now split.
  - rewrite (fetch_team_players_loop_retry E id h d k a w Hd).
    pose proof (Hfail 0%nat ltac:(lia)) as H0.
    rewrite Nat.add_0_r in H0.
    assert (Hnext : forall m,
      exists new,
        fetch_team_players_loop E id h d k (a + 1)
          (w ++ [HttpGet (TeamUrl id) h; Log (fst m) (snd m); Sleep d])
        = (Ret [], (w ++ [HttpGet (TeamUrl id) h; Log (fst m) (snd m);
                          Sleep d]) ++ new)
        /\ gets new = k).
    { intro m. apply IH. intros i Hi.
      rewrite gets_app. cbn [gets filter is_get List.length].
      replace (gets w + 1 + i)%nat with (gets w + S i)%nat by lia.
      apply Hfail. lia. }
    destruct (http_get E (gets w) (TeamUrl id)) as [s body | msg];
      cbn in H0.
    + rewrite (status_not_200 s H0).
      destruct (Hnext (WARNING, AttemptFailedForTeam (a + 1) id s))
        as (new & Hrun & Hn).
      cbn [fst snd] in Hrun. rewrite Hrun, <- app_assoc.
      eexists; split; [reflexivity |].
      rewrite gets_app. cbn. lia.
    + destruct (Hnext (ERROR, RequestExceptionForTeam id msg))
        as (new & Hrun & Hn).
      cbn [fst snd] in Hrun. rewrite Hrun, <- app_assoc.
      eexists; split; [reflexivity |].
      rewrite gets_app. cbn. lia.
Qed.

Lemma tag_squad_no_players id fields :
  no_players fields -> tag_squad id (JObj fields) = Ret [].
Proof. intros [H | H]; cbn; now rewrite H. Qed.

(** Every call of [fetch_team_players] extends the trace, and adds no
    progress record. *)
Lemma fetch_team_players_loop_events E id h d :
  forall k a w,
    exists ev,
      snd (fetch_team_players_loop E id h d k a w) = w ++ ev
      /\ Forall (fun e => is_progress e = false) ev.
Proof.
  induction k as [| k IH]; intros a w.
  - exists [Log WARNING (AllAttemptsFailed id)]. split; [reflexivity |].
    now repeat constructor.
  - rewrite fetch_team_players_loop_step.
    destruct (http_get E (gets w) (TeamUrl id)) as [s body | msg].
    + destruct (s =? 200).
      * exists [HttpGet (TeamUrl id) h]. split; [reflexivity |].
        now repeat constructor.
      * destruct (Qle_bool 0 d);
          [| eexists; split; [reflexivity | now repeat constructor]].
        destruct (IH (a + 1)
                    (w ++ [HttpGet (TeamUrl id) h;
                           Log WARNING (AttemptFailedForTeam (a + 1) id s);
                           Sleep d])) as (ev & Hev & Hno).
        rewrite Hev, <- app_assoc. eexists; split; [reflexivity |].
        apply Forall_app; split; [now repeat constructor | assumption].
    + destruct (Qle_bool 0 d);
        [| eexists; split; [reflexivity | now repeat constructor]].
      destruct (IH (a + 1)
                  (w ++ [HttpGet (TeamUrl id) h;
                         Log ERROR (RequestExceptionForTeam id msg);
                         Sleep d])) as (ev & Hev & Hno).
      rewrite Hev, <- app_assoc. eexists; split; [reflexivity |].
      apply Forall_app; split; [now repeat constructor | assumption].
Qed.

Lemma fetch_team_players_events E id h r d w :
  exists ev,
    snd (fetch_team_players E id h r d w) = w ++ ev
    /\ Forall (fun e => is_progress e = false) ev.
Proof. apply fetch_team_players_loop_events. Qed.

(** ** The loop of [fetch_all_players] *)

Lemma players_loop_step E id rest i N h r d iv all failed w :
  players_loop E (id :: rest) i N h r d iv all failed w =
  match fetch_team_players E id h r d w with
  | (Ret players, w1) =>
      if Qle_bool 0 iv
      then players_loop E rest (i + 1) N h r d iv
             (if negb (is_nil players) then all ++ players else all)
             (if negb (is_nil players) then failed else failed ++ [id])
             (w1 ++ [Log INFO (Processed i N); Sleep iv])
      else (Raise negative_sleep, w1 ++ [Log INFO (Processed i N)])
  | (Raise e, w1) => (Raise e, w1)
  end.
Proof.
  cbn [players_loop]. unfold bind at 1.
  destruct (fetch_team_players E id h r d w) as [[players | e] w1];
    [| reflexivity].
  unfold bind, logging, time_sleep, emit, raise.
  destruct (Qle_bool 0 iv); [| reflexivity].
  rewrite <- app_assoc. now destruct (is_nil players).
Qed.

(** One turn when the pacing sleep is accepted. *)
Lemma players_loop_paced E id rest i N h r d iv all failed w :
  (0 <= iv)%Q ->
  players_loop E (id :: rest) i N h r d iv all failed w =
  match fetch_team_players E id h r d w with
  | (Ret players, w1) =>
      players_loop E rest (i + 1) N h r d iv
        (if negb (is_nil players) then all ++ players else all)
        (if negb (is_nil players) then failed else failed ++ [id])
        (w1 ++ [Log INFO (Processed i N); Sleep iv])
  | (Raise e, w1) => (Raise e, w1)
  end.
Proof.
  intro Hiv. apply Qle_bool_iff in Hiv. rewrite players_loop_step, Hiv.
  reflexivity.
Qed.

(** What the loop has done when it returns: one completed fetch per
    identifier, in order; the players of all fetches accumulated; the
    identifiers of the fetches without players recorded as failed. *)
Lemma players_loop_ret E h r d iv N :
  forall ids i all failed w acc w',
    players_loop E ids i N h r d iv all failed w = (Ret acc, w') ->
    exists results,
      Forall2 (fetched E h r d) ids results
      /\ fst acc = all ++ flat_map fst results
      /\ snd acc = failed ++ failed_of ids results
      /\ w' = w ++ paced_events iv N i (map snd results).
Proof.
  induction ids as [| id ids IH]; intros i all failed w acc w' Hrun.
  - cbn in Hrun. injection Hrun as <- <-. exists [].
    cbn. rewrite !app_nil_r. repeat split. constructor.
  - rewrite players_loop_step in Hrun.
    destruct (fetch_team_players_events E id h r d w) as (ev & Hev & _).
    destruct (fetch_team_players E id h r d w) as [[players | e] w1] eqn:Hf;
      [| discriminate].
    destruct (Qle_bool 0 iv); [| discriminate].
    cbn in Hev. subst w1.
    apply IH in Hrun. destruct Hrun as (results & HF & Hall & Hfailed & Hw).
    exists ((players, ev) :: results). repeat split.
    + constructor; [| assumption]. exists w. exact Hf.
    + rewrite Hall. cbn [flat_map fst].
      destruct players; cbn [is_nil negb]; [reflexivity |].
      now rewrite <- app_assoc.
    + rewrite Hfailed. unfold failed_of. cbn [combine flat_map fst snd].
      destruct players; cbn [is_nil negb]; [| reflexivity].
      now rewrite <- app_assoc.
    + rewrite Hw. cbn [map snd paced_events]. now rewrite <- !app_assoc.
Qed.

Lemma Forall2_In_l {A B} (P : A -> B -> Prop) (l : list A) (l' : list B) a :
  Forall2 P l l' -> In a l -> exists b, In (a, b) (combine l l') /\ P a b.
Proof.
  induction 1 as [| x y l l' Hxy HF IH]; intros Hin; [destruct Hin |].
  destruct Hin as [-> | Hin].
  - exists y. split; [now left | assumption].
  - destruct (IH Hin) as (b & Hb & HP). exists b. split; [now right | assumption].
Qed.

Lemma in_failed_of ids results id re :
  In (id, re) (combine ids results) -> fst re = [] ->
  In id (failed_of ids results).
Proof.
  intros Hin Hnil. unfold failed_of. apply in_flat_map.
  exists (id, re). split; [assumption |]. cbn. rewrite Hnil. now left.
Qed.

Lemma fetch_team_players_loop_success E id h d body :
  (0 <= d)%Q ->
  forall j n a w,
    (j < n)%nat ->
    (forall i, (i < j)%nat ->
               attempt_fails (http_get E (gets w + i) (TeamUrl id))) ->
    http_get E (gets w + j) (TeamUrl id) = Responded 200 body ->
    exists pre,
      fetch_team_players_loop E id h d n a w
      = (tag_squad id body, w ++ pre ++ [HttpGet (TeamUrl id) h])
      /\ gets pre = j.
Proof.
  intro Hd.
  induction j as [| j IH]; intros n a w Hlt Hfail Hok;
    (destruct n as [| n]; [lia |]);
    rewrite (fetch_team_players_loop_retry E id h d n a w Hd).
  - rewrite Nat.add_0_r in Hok. rewrite Hok.
    change (200 =? 200) with true. cbv iota. now exists [].
  - pose proof (Hfail 0%nat ltac:(lia)) as H0.
    rewrite Nat.add_0_r in H0.
    assert (Hnext : forall m,
      exists pre,
        fetch_team_players_loop E id h d n (a + 1)
          (w ++ [HttpGet (TeamUrl id) h; Log (fst m) (snd m); Sleep d])
        = (tag_squad id body,
           (w ++ [HttpGet (TeamUrl id) h; Log (fst m) (snd m); Sleep d])
             ++ pre ++ [HttpGet (TeamUrl id) h])
        /\ gets pre = j).
    { intro m. apply IH; [lia | |].
      - intros i Hi. rewrite gets_app. cbn [gets filter is_get List.length].
        replace (gets w + 1 + i)%nat with (gets w + S i)%nat by lia.
        apply Hfail. lia.
      - rewrite gets_app. cbn [gets filter is_get List.length].
        replace (gets w + 1 + j)%nat with (gets w + S j)%nat by lia.
        exact Hok. }
    destruct (http_get E (gets w) (TeamUrl id)) as [s b | msg]; cbn in H0.
    + rewrite (status_not_200 s H0).
      destruct (Hnext (WARNING, AttemptFailedForTeam (a + 1) id s))
        as (pre & Hrun & Hn).
      cbn [fst snd] in Hrun. rewrite Hrun, <- app_assoc.
      exists ([HttpGet (TeamUrl id) h;
               Log WARNING (AttemptFailedForTeam (a + 1) id s); Sleep d]
                ++ pre).
      split; [now rewrite <- app_assoc |].
      rewrite gets_app. cbn. lia.
    + destruct (Hnext (ERROR, RequestExceptionForTeam id msg))
        as (pre & Hrun & Hn).
      cbn [fst snd] in Hrun. rewrite Hrun, <- app_assoc.
      exists ([HttpGet (TeamUrl id) h;
               Log ERROR (RequestExceptionForTeam id msg); Sleep d]
                ++ pre).
      split; [now rewrite <- app_assoc |].
      rewrite gets_app. cbn. lia.
Qed.

(** A team whose answers are failures or empty squads: no call of
    [fetch_team_players] returns a player. *)
Lemma fetch_team_players_loop_no_players E id h d :
  (forall n, empty_or_failed (http_get E n (TeamUrl id))) ->
  forall k a w players w',
    fetch_team_players_loop E id h d k a w = (Ret players, w') ->
    players = [].
Proof.
  intro Hteam. induction k as [| k IH]; intros a w players w' Hrun.
  - cbn in Hrun. now injection Hrun as <- _.
  - rewrite fetch_team_players_loop_step in Hrun. specialize (Hteam (gets w)).
    destruct (http_get E (gets w) (TeamUrl id)) as [s body | msg].
    + destruct (s =? 200) eqn:Hs.
      * apply Z.eqb_eq in Hs. destruct (Hteam Hs) as (fields & -> & Hno).
        rewrite (tag_squad_no_players id fields Hno) in Hrun.
        now injection Hrun as <- _.
      * destruct (Qle_bool 0 d); [now apply IH in Hrun | discriminate].
    + destruct (Qle_bool 0 d); [now apply IH in Hrun | discriminate].
Qed.

Lemma db_write_events E con db_type sql w :
  exists ev,
    snd (db_write E con db_type sql w) = w ++ ev
    /\ Forall (fun e => is_progress e = false) ev.
Proof.
  unfold db_write, con_execute, ret.
  destruct (db_type =? "duckdb")%string;
    [| destruct (db_type =? "snowflake")%string].
  3: { exists []. now rewrite app_nil_r. }
  all: destruct (db_execute E con sql);
    (eexists; split; [reflexivity | now repeat constructor]).
Qed.

Lemma report_missing_events df_teams failed w :
  exists ev,
    snd (report_missing df_teams failed w) = w ++ ev
    /\ Forall (fun e => is_progress e = false) ev.
Proof.
  unfold report_missing.
  destruct (is_nil failed); [exists []; now rewrite app_nil_r |].
  destruct (has_column "id" df_teams); cbn [negb];
    [| exists []; now rewrite app_nil_r].
  destruct (has_column "name" df_teams); cbn [negb];
    [| exists []; now rewrite app_nil_r].
  unfold bind, logging, emit. rewrite <- app_assoc.
  eexists; split; [reflexivity | now repeat constructor].
Qed.

(** What a normal return of [fetch_all_players] says about its steps. *)
Lemma fetch_all_players_ret E df_teams h con db_type rpm r d w df_players
    failed_teams w' :
  fetch_all_players E df_teams h con db_type rpm r d w
  = (Ret (df_players, failed_teams), w') ->
  exists ids all_players w1 df tail,
    Qeq_bool rpm 0 = false
    /\ column "id" df_teams = Ret ids
    /\ players_loop E ids 1 (Z.of_nat (List.length (records df_teams))) h r d
         (60 / rpm)%Q [] [] (w ++ [Call FetchAllPlayers])
       = (Ret (all_players, failed_teams), w1)
    /\ json_normalize (JArr all_players) = Ret df
    /\ drop_duplicates "id" df = Ret df_players
    /\ w' = w1 ++ tail
    /\ Forall (fun e => is_progress e = false) tail.
Proof.
  intro Hrun. unfold fetch_all_players in Hrun.
  unfold bind at 1, emit in Hrun.
  destruct (Qeq_bool rpm 0) eqn:Hrpm; [discriminate |].
  unfold bind at 1, lift in Hrun.
  destruct (column "id" df_teams) as [ids | e] eqn:Hids; [| discriminate].
  unfold bind at 1 in Hrun.
  destruct (players_loop E ids 1 _ h r d _ [] [] _)
    as [[[all_players failed] | e] w1] eqn:Hloop; [| discriminate].
  cbn [fst snd] in Hrun.
  unfold bind at 1, lift in Hrun.
  destruct (json_normalize (JArr all_players)) as [df | e] eqn:Hdf;
    [| discriminate].
  unfold bind at 1, lift in Hrun.
  destruct (drop_duplicates "id" df) as [dfp | e] eqn:Hdd; [| discriminate].
  unfold bind at 1 in Hrun.
  destruct (db_write_events E con db_type
              "CREATE OR REPLACE TABLE players AS SELECT * FROM df_players"
              w1) as (ev1 & Hev1 & Hno1).
  destruct (db_write E con db_type _ w1) as [[[] | e] w2]; [| discriminate].
  cbn [snd] in Hev1. subst w2.
  unfold bind at 1, logging, emit in Hrun.
  unfold bind at 1 in Hrun.
  destruct (report_missing_events df_teams failed
              ((w1 ++ ev1) ++ [Log INFO PlayersUpdated]))
    as (ev2 & Hev2 & Hno2).
  destruct (report_missing df_teams failed _) as [[[] | e] w3];
    [| discriminate].
  cbn [snd] in Hev2. subst w3. unfold ret in Hrun.
  injection Hrun as <- <- <-.
  exists ids, all_players, w1, df, (ev1 ++ [Log INFO PlayersUpdated] ++ ev2).
  repeat split; try assumption; try reflexivity.
  - now rewrite <- !app_assoc.
  - apply Forall_app; split; [assumption |].
    apply Forall_app; split; [now repeat constructor | assumption].
Qed.

(** C10. With a delay [sleep_between >= 0], [fetch_team_players] returns
    the empty list for a team whose fetch succeeds, at its [k]-th attempt,
    with status 200 and a payload whose [squad] is absent or empty; this is
    the value it returns when all its attempts fail.  Consequently, whenever
    [fetch_all_players] returns, a team for which every successful answer
    is of that kind is recorded in [failed_teams], as a team that could not
    be fetched is. *)
Theorem empty_squad_recorded_as_failed E id h r d :
  (forall w k fields,
      (0 <= d)%Q ->
      1 <= k <= r ->
      (forall i, (i < Z.to_nat (k - 1))%nat ->
                 attempt_fails (http_get E (gets w + i) (TeamUrl id))) ->
      http_get E (gets w + Z.to_nat (k - 1)) (TeamUrl id)
      = Responded 200 (JObj fields) ->
      no_players fields ->
      exists pre,
        fetch_team_players E id h r d w
        = (Ret [], w ++ pre ++ [HttpGet (TeamUrl id) h])
        /\ Z.of_nat (gets (pre ++ [HttpGet (TeamUrl id) h])) = k)
  /\ (forall w,
         (0 <= d)%Q ->
         (forall i, (i < Z.to_nat r)%nat ->
                    attempt_fails (http_get E (gets w + i) (TeamUrl id))) ->
         fst (fetch_team_players E id h r d w) = Ret [])
  /\ ((forall n, empty_or_failed (http_get E n (TeamUrl id))) ->
      forall df_teams con db_type rpm w ids df_players failed_teams w',
        column "id" df_teams = Ret ids ->
        In id ids ->
        fetch_all_players E df_teams h con db_type rpm r d w
        = (Ret (df_players, failed_teams), w') ->
        In id failed_teams).
Proof.
  split; [| split].
  - intros w k fields Hd Hk Hfail Hok Hno. unfold fetch_team_players.
    destruct (fetch_team_players_loop_success E id h d (JObj fields) Hd
                (Z.to_nat (k - 1)) (Z.to_nat r) 0 w ltac:(lia) Hfail Hok)
      as (pre & Hrun & Hn).
    rewrite (tag_squad_no_players id fields Hno) in Hrun.
    exists pre. split; [exact Hrun |].
    rewrite gets_app, Hn. cbn. lia.
  - intros w Hd Hfail. unfold fetch_team_players.
    destruct (fetch_team_players_loop_exhausted E id h d Hd (Z.to_nat r) 0 w
                Hfail) as (new & -> & _).
    reflexivity.
  - intros Hteam df_teams con db_type rpm w ids df_players failed_teams w'
      Hids Hin Hrun.
    apply fetch_all_players_ret in Hrun.
    destruct Hrun as (ids' & all_players & w1 & df & tail & _ & Hids'
                      & Hloop & _).
    rewrite Hids in Hids'. injection Hids' as <-.
    apply players_loop_ret in Hloop.
    destruct Hloop as (results & HF & _ & Hfailed & _).
    cbn [snd] in Hfailed.
    rewrite Hfailed. cbn [app].
    destruct (Forall2_In_l _ _ _ _ HF Hin) as (re & Hre & (w0 & Hfetch)).
    apply (in_failed_of ids results id re Hre).
    unfold fetch_team_players in Hfetch.
    exact (fetch_team_players_loop_no_players E id h d Hteam (Z.to_nat r) 0
             w0 _ _ Hfetch).
Qed.

Lemma empty_squad_recorded_as_failed_witness :
  (exists pre,
      fetch_team_players api_empty_after_timeout (JNum 1) [] 3 2%Q []
      = (Ret [], [] ++ pre ++ [HttpGet (TeamUrl (JNum 1)) []])
      /\ Z.of_nat (gets (pre ++ [HttpGet (TeamUrl (JNum 1)) []])) = 2)
  /\ exists df_players failed_teams w',
       fetch_all_players api_empty_after_timeout two_teams [] DuckDB
         "duckdb" 60 3 2 []
       = (Ret (df_players, failed_teams), w')
       /\ In (JNum 1) failed_teams.
Proof.
  destruct (empty_squad_recorded_as_failed api_empty_after_timeout (JNum 1)
              [] 3 2%Q) as (Hsingle & _ & Hbatch).
  split.
  - apply (Hsingle [] 2 [("id", JNum 57); ("squad", JArr [])]).
    + unfold Qle; simpl; lia.
    + lia.
    + intros i Hi. cbn in Hi. destruct i; [exact I | lia].
    + reflexivity.
    + right. reflexivity.
  - eexists _, _, _. split; [vm_compute; reflexivity |].
    apply (Hbatch ltac:(intro n; destruct n; cbn;
                        [exact I | intros _; eexists; split;
                                   [reflexivity | right; reflexivity]])
             two_teams DuckDB "duckdb" 60%Q [] [JNum 1; JNum 2] empty_frame
             [JNum 1; JNum 2]
             (snd (fetch_all_players api_empty_after_timeout two_teams []
                     DuckDB "duckdb" 60 3 2 []))).
    + reflexivity.
    + now left.
    + vm_compute. reflexivity.
Defined.

(** ** Pacing *)

Lemma pacing_sleeps_skip (ev l : list event) :
  Forall (fun e => is_progress e = false) ev ->
  pacing_sleeps (ev ++ l) = pacing_sleeps l.
Proof.
  induction 1 as [| e ev He _ IH]; [reflexivity |].
  cbn [app pacing_sleeps]. rewrite <- IH.
  destruct e as [| | | l0 m | | |]; try reflexivity.
  destruct m; try reflexivity. discriminate.
Qed.

Lemma pacing_sleeps_paced iv N (fetches : list (list event)) :
  forall i tail,
    Forall (Forall (fun e => is_progress e = false)) fetches ->
    Forall (fun e => is_progress e = false) tail ->
    pacing_sleeps (paced_events iv N i fetches ++ tail)
    = repeat iv (List.length fetches).
Proof.
  induction fetches as [| ev fetches IH]; intros i tail Hf Ht.
  - cbn. rewrite <- (app_nil_r tail). now apply pacing_sleeps_skip.
  - inversion Hf as [| ? ? Hev Hrest]; subst.
    cbn [paced_events List.length repeat].
    rewrite <- app_assoc, (pacing_sleeps_skip ev _ Hev).
    cbn [app pacing_sleeps]. f_equal. now apply IH.
Qed.

Lemma fetched_no_progress E h r d id re :
  fetched E h r d id re -> Forall (fun e => is_progress e = false) (snd re).
Proof.
  intros (w & Hrun).
  destruct (fetch_team_players_events E id h r d w) as (ev & Hev & Hno).
  rewrite Hrun in Hev. cbn in Hev. apply app_inv_head in Hev. now subst.
Qed.

Lemma column_length c df ids :
  column c df = Ret ids -> List.length ids = List.length (records df).
Proof.
  unfold column. destruct (has_column c df); [| discriminate].
  intro H. injection H as <-. apply length_map.
Qed.

(** When every team's fetch returns and the pacing sleep is accepted, the
    loop runs to its end. *)
Lemma players_loop_completes E h r d iv N :
  (0 <= iv)%Q ->
  forall ids,
    (forall id w0, In id ids ->
       exists players w0',
         fetch_team_players E id h r d w0 = (Ret players, w0')) ->
    forall i all failed w,
      exists acc w', players_loop E ids i N h r d iv all failed w = (Ret acc, w').
Proof.
  intro Hiv. induction ids as [| id ids IH]; intros Hret i all failed w.
  - now eexists _, _.
  - rewrite (players_loop_paced E id ids i N h r d iv all failed w Hiv).
    destruct (Hret id w (or_introl eq_refl)) as (players & w1 & ->).
    apply IH. intros id' w0 Hin. apply Hret. now right.
Qed.

(** The statements after the loop add no progress record, whether they
    raise or not. *)
Lemma after_loop_events E df_teams con db_type (acc : list json * list json) :
  emits (fun e => is_progress e = false)
    (df <- lift (json_normalize (JArr (fst acc))) ;;
     df_players <- lift (drop_duplicates "id" df) ;;
     db_write E con db_type
       "CREATE OR REPLACE TABLE players AS SELECT * FROM df_players" ;;
     logging INFO PlayersUpdated ;;
     report_missing df_teams (snd acc) ;;
     ret (df_players, snd acc)).
Proof.
  apply emits_bind; [apply emits_lift | intro df].
  apply emits_bind; [apply emits_lift | intro df_players].
  apply emits_bind; [intro w; apply db_write_events | intro].
  apply emits_bind; [now apply emits_emit | intro].
  apply emits_bind; [intro w; apply report_missing_events | intro].
  apply emits_ret.
Qed.

(** C9. Let [requests_per_min] be positive, so that the interval
    [60 / requests_per_min] is positive, and let the fetch of every
    identifier return, with or without players.  Then a call of
    [fetch_all_players] over [N] identifiers runs, for each identifier in
    order, the team's fetch, then the progress record, then a sleep of
    exactly that interval, the last identifier included: exactly [N]
    pacing sleeps, one after each of the [N] fetches, whatever the
    statements after the loop do. *)
Theorem pacing_sleep_after_every_fetch E df_teams h con db_type rpm r d w
    ids :
  (0 < rpm)%Q ->
  column "id" df_teams = Ret ids ->
  (forall id w0, In id ids ->
     exists players w0',
       fetch_team_players E id h r d w0 = (Ret players, w0')) ->
  exists fetches tail,
    (0 < 60 / rpm)%Q
    /\ Forall2 (team_fetch E h r d) ids fetches
    /\ snd (fetch_all_players E df_teams h con db_type rpm r d w)
       = w ++ [Call FetchAllPlayers]
           ++ paced_events (60 / rpm) (Z.of_nat (List.length ids)) 1 fetches
           ++ tail
    /\ Forall (fun e => is_progress e = false) tail
    /\ pacing_sleeps
         ([Call FetchAllPlayers]
            ++ paced_events (60 / rpm) (Z.of_nat (List.length ids)) 1 fetches
            ++ tail)
       = repeat (60 / rpm)%Q (List.length ids).
Proof.
  intros Hrpm Hids Hret.
  assert (Hpos : (0 < 60 / rpm)%Q).
  { apply Qlt_shift_div_l; [exact Hrpm |]. now rewrite Qmult_0_l. }
  assert (Hnz : Qeq_bool rpm 0 = false).
  { destruct (Qeq_bool rpm 0) eqn:Hz; [| reflexivity].
    apply Qeq_bool_iff in Hz. rewrite Hz in Hrpm.
    now apply Qlt_irrefl in Hrpm. }
  destruct (players_loop_completes E h r d (60 / rpm)%Q
              (Z.of_nat (List.length (records df_teams)))
              (Qlt_le_weak _ _ Hpos) ids Hret 1 [] []
              (w ++ [Call FetchAllPlayers])) as (acc & w1 & Hloop).
  assert (Hrun : exists tail,
             snd (fetch_all_players E df_teams h con db_type rpm r d w)
             = w1 ++ tail
             /\ Forall (fun e => is_progress e = false) tail).
  { unfold fetch_all_players. unfold bind at 1, emit. rewrite Hnz.
    unfold bind at 1, lift. rewrite Hids. unfold bind at 1. rewrite Hloop.
    apply after_loop_events. }
  destruct Hrun as (tail & Hsnd & Htail).
  rewrite <- (column_length _ _ _ Hids) in Hloop.
  apply players_loop_ret in Hloop.
  destruct Hloop as (results & HF & _ & _ & ->).
  exists (map snd results), tail.
  assert (Hlen : List.length (map snd results) = List.length ids).
  { rewrite length_map. symmetry. exact (Forall2_length HF). }
  assert (Hno : Forall (Forall (fun e => is_progress e = false))
                  (map snd results)).
  { apply Forall_map. clear - HF.
    induction HF as [| id re ids results Hre _ IH]; constructor;
      [exact (fetched_no_progress _ _ _ _ _ _ Hre) | assumption]. }
  split; [exact Hpos |]. split; [| split; [| split]].
  - clear - HF. induction HF as [| id re ids results Hre _ IH];
      constructor; [| assumption].
    destruct Hre as (w0 & Hre). now exists w0, (fst re).
  - rewrite Hsnd. now rewrite <- !app_assoc.
  - exact Htail.
  - cbn [app pacing_sleeps].
    rewrite (pacing_sleeps_paced _ _ _ 1 tail Hno Htail). now rewrite Hlen.
Qed.

Lemma pacing_sleep_after_every_fetch_witness :
  exists fetches tail,
    (0 < 60 / 10)%Q
    /\ Forall2 (team_fetch api_down [] 2 0%Q) [JNum 1; JNum 2] fetches
    /\ snd (fetch_all_players api_down two_teams [] DuckDB "duckdb" 10 2 0 [])
       = [] ++ [Call FetchAllPlayers]
            ++ paced_events (60 / 10)
                 (Z.of_nat (List.length [JNum 1; JNum 2])) 1 fetches
            ++ tail
    /\ Forall (fun e => is_progress e = false) tail
    /\ pacing_sleeps
         ([Call FetchAllPlayers]
            ++ paced_events (60 / 10)
                 (Z.of_nat (List.length [JNum 1; JNum 2])) 1 fetches
            ++ tail)
       = repeat (60 / 10)%Q (List.length [JNum 1; JNum 2]).
Proof.
  apply (pacing_sleep_after_every_fetch api_down two_teams [] DuckDB "duckdb"
           10%Q 2 0%Q [] [JNum 1; JNum 2]).
  - reflexivity.
  - reflexivity.
  - intros id w0 _.
    destruct (fetch_team_players_loop_exhausted api_down id [] 0%Q
                (Qle_refl 0) 2 0 w0)
      as (new & Hrun & _).
    + intros i _. cbn. discriminate.
    + now exists [], (w0 ++ new).
Defined.

(** ** Tags and the partition of the identifiers *)

Lemma dict_get_set k v d : dict_get k (dict_set k v d) = Some v.
Proof.
  induction d as [| [k' v'] d IH]; cbn.
  - now rewrite String.eqb_refl.
  - destruct (k' =? k)%string eqn:Hk; cbn.
    + now rewrite String.eqb_refl.
    + now rewrite Hk.
Qed.

Lemma tag_players_tagged id :
  forall players l, tag_players id players = Ret l -> Forall (tagged id) l.
Proof.
  induction players as [| p players IH]; intros l Hl.
  - injection Hl as <-. constructor.
  - cbn in Hl. destruct p as [| | | | | fields]; try discriminate.
    destruct (tag_players id players) as [tl | e]; [| discriminate].
    injection Hl as <-. constructor; [| now apply IH].
    eexists. split; [reflexivity | apply dict_get_set].
Qed.

Lemma tag_squad_tagged id body l :
  tag_squad id body = Ret l -> Forall (tagged id) l.
Proof.
  unfold tag_squad. destruct body as [| | | | | fields]; try discriminate.
  destruct (dict_get "squad" fields) as [[| | | s | ps | fs] |];
    try discriminate.
  - destruct s; [| discriminate]. intro H. injection H as <-. constructor.
  - apply tag_players_tagged.
  - destruct fs; [| discriminate]. intro H. injection H as <-. constructor.
  - intro H. injection H as <-. constructor.
Qed.

Lemma fetch_team_players_loop_tagged E id h d :
  forall k a w l w',
    fetch_team_players_loop E id h d k a w = (Ret l, w') ->
    Forall (tagged id) l.
Proof.
  induction k as [| k IH]; intros a w l w' Hrun.
  - cbn in Hrun. injection Hrun as <- _. constructor.
  - rewrite fetch_team_players_loop_step in Hrun.
    destruct (http_get E (gets w) (TeamUrl id)) as [s body | msg].
    + destruct (s =? 200).
      * injection Hrun as Hl _. now apply tag_squad_tagged in Hl.
      * destruct (Qle_bool 0 d); [now apply IH in Hrun | discriminate].
    + destruct (Qle_bool 0 d); [now apply IH in Hrun | discriminate].
Qed.

Lemma fetched_tagged E h r d id re :
  fetched E h r d id re -> Forall (tagged id) (fst re).
Proof.
  intros (w & Hrun). now apply fetch_team_players_loop_tagged in Hrun.
Qed.

(** An identifier that occurs once in the list has one result. *)
Lemma combine_NoDup_eq {A B} (l : list A) (l' : list B) a b b' :
  NoDup l -> In (a, b) (combine l l') -> In (a, b') (combine l l') -> b = b'.
Proof.
  intro Hnd. revert l'.
  induction Hnd as [| x l Hx _ IH]; intros l' H1 H2; [destruct H1 |].
  destruct l' as [| y l']; [destruct H1 |]. cbn [combine] in H1, H2.
  destruct H1 as [H1 | H1], H2 as [H2 | H2].
  - congruence.
  - injection H1 as -> ->. apply in_combine_l in H2. contradiction.
  - injection H2 as -> ->. apply in_combine_l in H1. contradiction.
  - now apply (IH l').
Qed.

Lemma in_failed_of_inv ids results id :
  In id (failed_of ids results) ->
  exists re, In (id, re) (combine ids results) /\ fst re = [].
Proof.
  unfold failed_of. intro Hin. apply in_flat_map in Hin.
  destruct Hin as ([id' re] & Hin & Hid). cbn in Hid.
  destruct (fst re) eqn:Hre; cbn in Hid; [| destruct Hid].
  destruct Hid as [<- | []]. now exists re.
Qed.

Lemma team_tags_app l1 l2 : team_tags (l1 ++ l2) = team_tags l1 ++ team_tags l2.
Proof. unfold team_tags. apply flat_map_app. Qed.

Lemma team_tags_tagged id l t :
  Forall (tagged id) l -> In t (team_tags l) -> t = id.
Proof.
  induction 1 as [| p l (fields & -> & Hf) _ IH]; [intros [] |].
  cbn. rewrite Hf. cbn. intros [<- | Hin]; [reflexivity | now apply IH].
Qed.

(** A tag among the accumulated players comes from a fetch of that very
    identifier that returned players. *)
Lemma team_tags_results E h r d :
  forall ids results t,
    Forall2 (fetched E h r d) ids results ->
    In t (team_tags (flat_map fst results)) ->
    exists re, In (t, re) (combine ids results) /\ fst re <> [].
Proof.
  intros ids results t HF.
  induction HF as [| id re ids results Hre _ IH]; [intros [] |].
  cbn [flat_map]. rewrite team_tags_app. intro Hin.
  apply in_app_or in Hin. destruct Hin as [Hin | Hin].
  - rewrite (team_tags_tagged id (fst re) t (fetched_tagged _ _ _ _ _ _ Hre)
               Hin).
    exists re. split; [now left |].
    intro Hnil. rewrite Hnil in Hin. destruct Hin.
  - destruct (IH Hin) as (re' & Hin' & Hne). exists re'.
    split; [now right | assumption].
Qed.

Lemma tagged_in_team_tags id p l :
  tagged id p -> In id (team_tags (p :: l)).
Proof. intros (fields & -> & Hf). cbn. rewrite Hf. now left. Qed.

Lemma team_tags_fetched E h r d :
  forall ids results id re,
    fetched E h r d id re ->
    In (id, re) (combine ids results) -> fst re <> [] ->
    In id (team_tags (flat_map fst results)).
Proof.
  intros ids results id re Hre Hin Hne.
  assert (Hsub : In id (team_tags (fst re))).
  { pose proof (fetched_tagged _ _ _ _ _ _ Hre) as Ht.
    destruct (fst re) as [| p l]; [congruence |].
    inversion Ht; subst. now apply tagged_in_team_tags. }
  apply in_combine_r in Hin. clear - Hin Hsub.
  induction results as [| re' results IH]; [destruct Hin |].
  cbn [flat_map]. rewrite team_tags_app. apply in_or_app.
  destruct Hin as [-> | Hin]; [now left | right; now apply IH].
Qed.

(** The claim C1 as it is written fails: with two teams whose squads are
    the same player, [drop_duplicates] removes the only row of the second
    team, which then is neither in the returned rows nor in
    [failed_teams]. *)
Lemma partition_of_returned_rows_fails :
  exists df_players failed_teams w',
    fetch_all_players api_shared_player two_teams [] DuckDB "duckdb" 60 3 2 []
    = (Ret (df_players, failed_teams), w')
    /\ column "id" two_teams = Ret [JNum 1; JNum 2]
    /\ ~ In (JNum 2) (frame_tags df_players)
    /\ ~ In (JNum 2) failed_teams.
Proof.
  eexists _, _, _. split; [vm_compute; reflexivity |].
  split; [reflexivity |]. split.
  - cbn. intros [H | []]. discriminate.
  - intros [].
Qed.

(** The identifiers of the input have to be pairwise different for
    "never both": when a team is listed twice and the API serves its squad
    to the first fetch only, the team tags an accumulated row and is in
    [failed_teams]. *)
Example repeated_identifier_in_both :
  column "id" same_team_twice = Ret [JNum 1; JNum 1]
  /\ fst (fetch_all_players api_first_request_only same_team_twice []
            DuckDB "duckdb" 60 1 2 [])
     = Ret ({| columns := ["id"; "team_id"];
               records := [[("id", JNum 7); ("team_id", JNum 1)]] |},
            [JNum 1]).
Proof. split; vm_compute; reflexivity. Qed.

(** C1, amended.  Whatever the API answers to each attempt, retries that
    succeed after failed attempts included, when [fetch_all_players]
    returns, every identifier of the input is in one of two places, never
    in neither: the tags of the rows accumulated by the loop, before
    deduplication, or [failed_teams].  When the identifiers of the input
    are pairwise different it is in exactly one of them, never in both.
    The returned frame is the accumulated rows after [drop_duplicates] on
    the player id. *)
Theorem partition_of_accumulated_rows E df_teams h con db_type rpm r d w
    df_players failed_teams w' :
  fetch_all_players E df_teams h con db_type rpm r d w
  = (Ret (df_players, failed_teams), w') ->
  exists ids all_players w1 df,
    column "id" df_teams = Ret ids
    /\ players_loop E ids 1 (Z.of_nat (List.length (records df_teams))) h r d
         (60 / rpm)%Q [] [] (w ++ [Call FetchAllPlayers])
       = (Ret (all_players, failed_teams), w1)
    /\ json_normalize (JArr all_players) = Ret df
    /\ drop_duplicates "id" df = Ret df_players
    /\ (forall id, In id ids ->
          In id (team_tags all_players) \/ In id failed_teams)
    /\ (NoDup ids ->
        forall id, In id ids ->
          (In id (team_tags all_players) /\ ~ In id failed_teams)
          \/ (~ In id (team_tags all_players) /\ In id failed_teams)).
Proof.
  intros Hrun. apply fetch_all_players_ret in Hrun.
  destruct Hrun as (ids & all_players & w1 & df & tail & _ & Hids & Hloop
                    & Hdf & Hdd & _).
  exists ids, all_players, w1, df.
  do 4 (split; [assumption |]).
  apply players_loop_ret in Hloop.
  destruct Hloop as (results & HF & Hall & Hfailed & _).
  cbn [fst snd app] in Hall, Hfailed. subst all_players failed_teams.
  assert (Hcover : forall id, In id ids ->
            In id (team_tags (flat_map fst results))
            \/ In id (failed_of ids results)).
  { intros id Hin.
    destruct (Forall2_In_l _ _ _ _ HF Hin) as (re & Hre & Hfetched).
    destruct (fst re) as [| p l] eqn:Hplayers.
    - right. now apply (in_failed_of ids results id re).
    - left. apply (team_tags_fetched E h r d ids results id re Hfetched Hre).
      now rewrite Hplayers. }
  split; [exact Hcover |].
  intros Hnd id Hin.
  assert (Hnot : ~ (In id (team_tags (flat_map fst results))
                    /\ In id (failed_of ids results))).
  { intros [Htag Hfail].
    destruct (team_tags_results _ _ _ _ _ _ _ HF Htag) as (re & Hre & Hne).
    apply in_failed_of_inv in Hfail. destruct Hfail as (re' & Hre' & Hnil).
    apply Hne. now rewrite (combine_NoDup_eq ids results id re re' Hnd Hre Hre'). }
  destruct (Hcover id Hin) as [Htag | Hfail]; [left | right]; tauto.
Qed.

Lemma partition_of_accumulated_rows_witness :
  exists ids all_players w1 df,
    column "id" two_teams = Ret ids
    /\ players_loop api_every_other ids 1
         (Z.of_nat (List.length (records two_teams))) [] 3 2%Q (60 / 60)%Q
         [] [] ([] ++ [Call FetchAllPlayers])
       = (Ret (all_players, [JNum 2]), w1)
    /\ json_normalize (JArr all_players) = Ret df
    /\ drop_duplicates "id" df
       = Ret {| columns := ["id"; "name"; "team_id"];
                records := [[("id", JNum 7); ("name", JStr "Saka");
                             ("team_id", JNum 1)]] |}
    /\ (forall id, In id ids ->
          In id (team_tags all_players) \/ In id [JNum 2])
    /\ (NoDup ids ->
        forall id, In id ids ->
          (In id (team_tags all_players) /\ ~ In id [JNum 2])
          \/ (~ In id (team_tags all_players) /\ In id [JNum 2])).
Proof.
  apply (partition_of_accumulated_rows api_every_other two_teams []
           DuckDB "duckdb" 60%Q 3 2%Q []
           {| columns := ["id"; "name"; "team_id"];
              records := [[("id", JNum 7); ("name", JStr "Saka");
                           ("team_id", JNum 1)]] |}
           [JNum 2]
           (snd (fetch_all_players api_every_other two_teams [] DuckDB
                   "duckdb" 60 3 2 []))).
  vm_compute. reflexivity.
Defined.

(** ** Normal return of [fetch_all_players] *)





(** *** The frame of the accumulated players *)

Lemma existsb_eqb_In c (cols : list string) :
  existsb (String.eqb c) cols = true <-> In c cols.
Proof.
  rewrite existsb_exists. split.
  - intros (x & Hin & Heq). apply String.eqb_eq in Heq. now subst.
  - intro Hin. exists c. split; [assumption | apply String.eqb_refl].
Qed.

Lemma add_label_keeps cols c c' : In c cols -> In c (add_label cols c').
Proof.
  intro Hin. unfold add_label.
  destruct (existsb (String.eqb c') cols); [assumption |].
  apply in_or_app. now left.
Qed.

Lemma add_label_adds cols c : In c (add_label cols c).
Proof.
  unfold add_label. destruct (existsb (String.eqb c) cols) eqn:Hc.
  - now apply existsb_eqb_In.
  - apply in_or_app. right. now left.
Qed.

Lemma fold_add_label_keeps keys :
  forall cols c, In c cols -> In c (fold_left add_label keys cols).
Proof.
  induction keys as [| k keys IH]; intros cols c Hin; [assumption |].
  cbn. apply IH. now apply add_label_keeps.
Qed.

Lemma fold_add_label_adds keys :
  forall cols c, In c keys -> In c (fold_left add_label keys cols).
Proof.
  induction keys as [| k keys IH]; intros cols c Hin; [destruct Hin |].
  cbn. destruct Hin as [-> | Hin].
  - apply fold_add_label_keeps, add_label_adds.
  - now apply IH.
Qed.

Lemma labels_fold_keeps rs :
  forall cols c,
    In c cols ->
    In c (fold_left
            (fun cols (r : record) => fold_left add_label (map fst r) cols)
            rs cols).
Proof.
  induction rs as [| r rs IH]; intros cols c Hin; [assumption |].
  cbn. apply IH. now apply fold_add_label_keeps.
Qed.

Lemma labels_fold_adds rs :
  forall cols c r,
    In r rs -> In c (map fst r) ->
    In c (fold_left
            (fun cols (r : record) => fold_left add_label (map fst r) cols)
            rs cols).
Proof.
  induction rs as [| r' rs IH]; intros cols c r Hin Hc; [destruct Hin |].
  cbn. destruct Hin as [-> | Hin].
  - apply labels_fold_keeps. now apply fold_add_label_adds.
  - now apply (IH _ c r).
Qed.

Lemma dict_get_key c (r : record) v : dict_get c r = Some v -> In c (map fst r).
Proof.
  induction r as [| [k x] r IH]; [discriminate |].
  cbn. destruct (k =? c)%string eqn:Hk.
  - apply String.eqb_eq in Hk. now left.
  - intro H. right. now apply IH.
Qed.

(** A key of some record is a column of the frame. *)
Lemma has_column_frame_of c rs r v :
  In r rs -> dict_get c r = Some v -> has_column c (frame_of rs) = true.
Proof.
  intros Hin Hget. unfold has_column, frame_of, labels. cbn [columns].
  apply existsb_eqb_In. apply (labels_fold_adds rs [] c r Hin).
  now apply (dict_get_key c r v).
Qed.







(** Other ways out of [fetch_all_players], each of which the amended
    statement below excludes: players without an [id], a database that
    rejects the statement, a teams frame without the [name] column when a
    team has failed, and a rate of zero. *)
Example players_without_id_raise :
  fst (fetch_all_players api_players_without_id two_teams [] DuckDB "duckdb"
         60 3 2 [])
  = Raise (KeyError "id").
Proof. vm_compute. reflexivity. Qed.

Example database_error_leaves_fetch_all_players :
  fst (fetch_all_players (db_broken (fun _ _ => Failed "timeout")) two_teams
         [] DuckDB "duckdb" 60 3 2 [])
  = Raise (OtherError "duckdb.Error").
Proof. vm_compute. reflexivity. Qed.

Example report_needs_name_column :
  fst (fetch_all_players api_down
         {| columns := ["id"]; records := [[("id", JNum 1)]] |}
         [] DuckDB "duckdb" 60 3 2 [])
  = Raise (KeyError "name").
Proof. vm_compute. reflexivity. Qed.

Example zero_rate_raises :
  fetch_all_players api_down two_teams [] DuckDB "duckdb" 0 3 2 []
  = (Raise ZeroDivisionError, [Call FetchAllPlayers]).
Proof. vm_compute. reflexivity. Qed.

(** With a negative [sleep_between], the [time.sleep] that follows the
    first failed attempt raises [ValueError]: team 1 is fetched, team 2
    fails once and the exception leaves [fetch_all_players]. *)
Example negative_delay_raises :
  fetch_all_players api_one_team_down two_teams [] DuckDB "duckdb" 10 3
    (-1) []
  = (Raise negative_sleep,
     [Call FetchAllPlayers; HttpGet (TeamUrl (JNum 1)) [];
      Log INFO (Processed 1 2); Sleep (60 / 10);
      HttpGet (TeamUrl (JNum 2)) [];
      Log ERROR (RequestExceptionForTeam (JNum 2) "timeout")]).
Proof. vm_compute. reflexivity. Qed.

(** With a negative [requests_per_min], the pacing sleep after the first
    team raises. *)
Example negative_rate_raises :
  fetch_all_players api_one_team_down two_teams [] DuckDB "duckdb" (-10) 3
    2 []
  = (Raise negative_sleep,
     [Call FetchAllPlayers; HttpGet (TeamUrl (JNum 1)) [];
      Log INFO (Processed 1 2)]).
Proof. vm_compute. reflexivity. Qed.



(** ** Deduplication *)

Lemma key_eqb_eq a b : key_eqb a b = true <-> a = b.
Proof.
  destruct a, b; cbn; try (split; [discriminate | congruence]).
  - now split.
  - rewrite Z.eqb_eq. split; congruence.
  - rewrite String.eqb_eq. split; congruence.
Qed.

Lemma existsb_key_In k l : existsb (key_eqb k) l = true <-> In k l.
Proof.
  rewrite existsb_exists. split.
  - intros (x & Hin & Heq). apply key_eqb_eq in Heq. now subst.
  - intro Hin. exists k. split; [assumption | now apply key_eqb_eq].
Qed.

Lemma existsb_key_same k l l' :
  (forall x, In x l <-> In x l') ->
  existsb (key_eqb k) l = existsb (key_eqb k) l'.
Proof.
  intro Hsame. apply eq_true_iff_eq. rewrite !existsb_key_In. apply Hsame.
Qed.

(** Remembering the keys of the kept rows only is the same as remembering
    the keys of all earlier rows. *)
Lemma keep_first_first_occurrences :
  forall rows seen earlier,
    (forall x, In x seen <-> In x earlier) ->
    keep_first seen rows = first_occurrences earlier rows.
Proof.
  induction rows as [| [k r] rows IH]; intros seen earlier Hsame;
    [reflexivity |].
  cbn. rewrite <- (existsb_key_same k seen earlier Hsame).
  destruct (existsb (key_eqb k) seen) eqn:Hk; cbn [app].
  - apply IH. intro x. rewrite in_app_iff, <- Hsame. cbn.
    apply existsb_key_In in Hk. split; [tauto |].
    intros [H | [<- | []]]; assumption.
  - f_equal. apply IH. intro x. rewrite in_app_iff, <- Hsame. cbn. tauto.
Qed.

Lemma drop_duplicates_spec c df df' :
  drop_duplicates c df = Ret df' ->
  (frame_empty df = true /\ df' = df)
  \/ (frame_empty df = false /\ has_column c df = true
      /\ exists keys,
           map_outcome key_of (map (cell c) (records df)) = Ret keys
           /\ columns df' = columns df
           /\ records df' = first_occurrences [] (combine keys (records df))).
Proof.
  unfold drop_duplicates. destruct (frame_empty df) eqn:He.
  - intro H. injection H as <-. now left.
  - destruct (has_column c df) eqn:Hc; cbn [negb]; [| discriminate].
    destruct (map_outcome key_of (map (cell c) (records df))) as [keys | e];
      [| discriminate].
    intro H. injection H as <-. right. repeat split.
    exists keys. repeat split. cbn [records].
    now apply keep_first_first_occurrences.
Qed.




(** ** The events of each step *)

Section Events.

Variable P : event -> Prop.
Hypothesis P_plain : forall e, plain e = true -> P e.
Variable E : env.
Variable h : headers.

Lemma emits_logging l m : emits P (logging l m).
Proof. apply emits_emit. now apply P_plain. Qed.

Lemma emits_time_sleep s : emits P (time_sleep s).
Proof.
  unfold time_sleep.
  destruct (Qle_bool 0 s); [apply emits_emit; now apply P_plain |].
  apply emits_raise.
Qed.

Lemma emits_requests_get u : P (HttpGet u h) -> emits P (requests_get E u h).
Proof.
  intros Hu w. exists [HttpGet u h]. split; [reflexivity | now constructor].
Qed.

Lemma emits_db_write con db_type sql : emits P (db_write E con db_type sql).
Proof.
  intro w. unfold db_write, con_execute, ret.
  destruct (db_type =? "duckdb")%string;
    [| destruct (db_type =? "snowflake")%string].
  3: { exists []. now rewrite app_nil_r. }
  all: destruct (db_execute E con sql);
    (eexists; split; [reflexivity |]; constructor; [| constructor];
     now apply P_plain).
Qed.

Lemma emits_fetch_json_loop u d :
  P (HttpGet u h) -> forall k a, emits P (fetch_json_loop E u h d k a).
Proof.
  intros Hu. induction k as [| k IH]; intro a; cbn [fetch_json_loop].
  - apply emits_bind; [apply emits_logging | intro; apply emits_ret].
  - apply emits_bind; [now apply emits_requests_get |].
    intros [s body | msg].
    + destruct (s =? 200); [apply emits_ret |].
      apply emits_bind; [apply emits_logging | intro].
      apply emits_bind; [apply emits_time_sleep | intro]. apply IH.
    + apply emits_bind; [apply emits_logging | intro].
      apply emits_bind; [apply emits_time_sleep | intro]. apply IH.
Qed.

Lemma emits_fetch_json u r d :
  P (HttpGet u h) -> emits P (fetch_json E u h r d).
Proof. intro Hu. now apply emits_fetch_json_loop. Qed.

Lemma emits_fetch_teams con db_type :
  P (Call FetchTeams) -> P (HttpGet TeamsUrl h) ->
  emits P (fetch_teams E h con db_type).
Proof.
  intros Hc Hu. unfold fetch_teams.
  apply emits_bind; [now apply emits_emit | intro].
  apply emits_bind; [now apply emits_fetch_json | intro data].
  apply emits_bind; [apply emits_lift | intros [|]].
  - apply emits_bind; [apply emits_lift | intro].
    apply emits_bind; [apply emits_lift | intro].
    apply emits_bind; [apply emits_db_write | intro].
    apply emits_bind; [apply emits_logging | intro]. apply emits_ret.
  - apply emits_bind; [apply emits_logging | intro]. apply emits_ret.
Qed.

Lemma emits_fetch_matches con db_type season :
  P (Call FetchMatches) -> P (HttpGet (MatchesUrl season) h) ->
  emits P (fetch_matches E h con db_type season).
Proof.
  intros Hc Hu. unfold fetch_matches.
  apply emits_bind; [now apply emits_emit | intro].
  apply emits_bind; [now apply emits_fetch_json | intro data].
  apply emits_bind; [apply emits_lift | intros [|]].
  - apply emits_bind; [apply emits_lift | intro].
    apply emits_bind; [apply emits_lift | intro].
    apply emits_bind; [apply emits_db_write | intro].
    apply emits_bind; [apply emits_logging | intro]. apply emits_ret.
  - apply emits_bind; [apply emits_logging | intro]. apply emits_ret.
Qed.

Hypothesis P_team : forall id, P (HttpGet (TeamUrl id) h).

Lemma emits_fetch_team_players id r d :
  emits P (fetch_team_players E id h r d).
Proof.
  unfold fetch_team_players. generalize 0 as a.
  induction (Z.to_nat r) as [| k IH]; intro a;
    cbn [fetch_team_players_loop].
  - apply emits_bind; [apply emits_logging | intro; apply emits_ret].
  - apply emits_bind; [apply emits_requests_get, P_team |].
    intros [s body | msg].
    + destruct (s =? 200); [apply emits_lift |].
      apply emits_bind; [apply emits_logging | intro].
      apply emits_bind; [apply emits_time_sleep | intro]. apply IH.
    + apply emits_bind; [apply emits_logging | intro].
      apply emits_bind; [apply emits_time_sleep | intro]. apply IH.
Qed.

Lemma emits_players_loop N r d iv :
  forall ids i all failed,
    emits P (players_loop E ids i N h r d iv all failed).
Proof.
  induction ids as [| id ids IH]; intros i all failed; cbn [players_loop].
  - apply emits_ret.
  - apply emits_bind; [apply emits_fetch_team_players | intro players].
    apply emits_bind; [apply emits_logging | intro].
    apply emits_bind; [apply emits_time_sleep | intro]. apply IH.
Qed.

Lemma emits_report_missing df_teams failed :
  emits P (report_missing df_teams failed).
Proof.
  unfold report_missing. destruct (is_nil failed); [apply emits_ret |].
  destruct (negb (has_column "id" df_teams)); [apply emits_raise |].
  destruct (negb (has_column "name" df_teams)); [apply emits_raise |].
  apply emits_bind; [apply emits_logging | intro]. apply emits_logging.
Qed.

Lemma emits_fetch_all_players df_teams con db_type rpm r d :
  P (Call FetchAllPlayers) ->
  emits P (fetch_all_players E df_teams h con db_type rpm r d).
Proof.
  intro Hc. unfold fetch_all_players.
  apply emits_bind; [now apply emits_emit | intro].
  destruct (Qeq_bool rpm 0); [apply emits_raise |].
  apply emits_bind; [apply emits_lift | intro ids].
  apply emits_bind; [apply emits_players_loop | intro acc].
  apply emits_bind; [apply emits_lift | intro].
  apply emits_bind; [apply emits_lift | intro].
  apply emits_bind; [apply emits_db_write | intro].
  apply emits_bind; [apply emits_logging | intro].
  apply emits_bind; [apply emits_report_missing | intro]. apply emits_ret.
Qed.

Lemma emits_etl_steps cfg con :
  (forall f, P (Call f)) -> (forall u, P (HttpGet u h)) ->
  emits P (etl_steps E cfg h con).
Proof.
  intros Hc Hu. unfold etl_steps.
  apply emits_bind; [now apply emits_fetch_teams | intro df_teams].
  destruct (frame_empty df_teams); [apply emits_logging |].
  apply emits_bind; [now apply emits_fetch_matches | intro].
  apply emits_bind; [now apply emits_fetch_all_players | intro].
  apply emits_logging.
Qed.

End Events.

(** ** [main] *)

Lemma closes_app (w1 w2 : list event) :
  closes (w1 ++ w2) = (closes w1 + closes w2)%nat.
Proof. unfold closes. now rewrite filter_app, length_app. Qed.

Lemma connects_app (w1 w2 : list event) :
  connects (w1 ++ w2) = (connects w1 + connects w2)%nat.
Proof. unfold connects. now rewrite filter_app, length_app. Qed.

Lemma keeps_connection_counts ev :
  Forall keeps_connection ev -> closes ev = 0%nat /\ connects ev = 0%nat.
Proof.
  unfold closes, connects.
  induction 1 as [| e ev [Hc Hn] _ [IHc IHn]]; [now split |].
  cbn. now rewrite Hc, Hn.
Qed.

Lemma keeps_connection_not_connect ev con :
  Forall keeps_connection ev -> ~ In (DbConnect con) ev.
Proof.
  intros HF Hin. rewrite Forall_forall in HF.
  destruct (HF _ Hin) as [_ H]. discriminate.
Qed.

Lemma plain_keeps_connection e : plain e = true -> keeps_connection e.
Proof. destruct e; try discriminate; now split. Qed.

Lemma plain_teams_stage e : plain e = true -> teams_stage e.
Proof. destruct e; try discriminate; repeat split; discriminate. Qed.

(** The connection is made, with its two events, or an exception leaves
    [get_db_connection] and the trace is as before. *)
Lemma get_db_connection_cases E cfg w :
  (exists e, get_db_connection E cfg w = (Raise e, w))
  \/ (exists con,
         get_db_connection E cfg w
         = (Ret con, w ++ [DbConnect con; Log INFO (Connected con)])).
Proof.
  unfold get_db_connection, connect, raise.
  destruct (lower (database_type cfg) =? "duckdb")%string;
    [| destruct (lower (database_type cfg) =? "snowflake")%string].
  - destruct (db_connect E DuckDB); [left | right]; now eexists.
  - destruct (db_connect E Snowflake); [left | right]; now eexists.
  - left. now eexists.
Qed.

Lemma finally_block_closes E con w :
  exists l m, finally_block E (Some con) w = (Ret tt, w ++ [DbClose con; Log l m]).
Proof.
  cbn [finally_block]. unfold bind, emit, logging, emit.
  destruct (db_close E con); rewrite <- app_assoc; now eexists _, _.
Qed.

(** Whatever the steps of the [try] block do, the [except] clause leaves a
    trace extended with events that keep the connection. *)
Lemma except_log_etl_steps E cfg h con w :
  exists ev,
    except_log (etl_steps E cfg h con w) = w ++ ev
    /\ Forall keeps_connection ev.
Proof.
  assert (Hsteps : emits keeps_connection (etl_steps E cfg h con)).
  { apply emits_etl_steps; try (intro; now split).
    apply plain_keeps_connection. }
  destruct (Hsteps w) as (ev & Hev & HP).
  destruct (etl_steps E cfg h con w) as [[[] | e] w1];
    cbn [snd] in Hev; subst w1; cbn [except_log].
  - now exists ev.
  - exists (ev ++ [Log ERROR (EtlFailed e)]). rewrite app_assoc.
    split; [reflexivity |]. apply Forall_app. split; [assumption |].
    constructor; [now split | constructor].
Qed.

(** C5. Whatever is raised while connecting or while fetching teams,
    matches or players, [main] returns without raising.  When the
    connection was acquired it is closed exactly once, and closing it is
    the last action of the run; when it was not, nothing is closed. *)
Theorem main_contains_exceptions E cfg w :
  exists new,
    main E (Some cfg) w = (Ret tt, w ++ new)
    /\ closes new = connects new
    /\ (connects new <= 1)%nat
    /\ forall con,
         In (DbConnect con) new ->
         exists before l m, new = before ++ [DbClose con; Log l m].
Proof.
  unfold main, bind, ret, try_block.
  destruct (get_db_connection_cases E cfg w) as [(e & ->) | (con & ->)].
  - cbn [except_log finally_block]. unfold ret.
    exists [Log ERROR (EtlFailed e)]. repeat split.
    + cbn. lia.
    + intros con [H | []]. discriminate.
  - destruct (except_log_etl_steps E cfg [("X-Auth-Token", api_token cfg)]
                con (w ++ [DbConnect con; Log INFO (Connected con)]))
      as (ev & -> & Hev).
    destruct (finally_block_closes E con
                ((w ++ [DbConnect con; Log INFO (Connected con)]) ++ ev))
      as (l & m & ->).
    destruct (keeps_connection_counts ev Hev) as [Hc Hn].
    exists ([DbConnect con; Log INFO (Connected con)]
              ++ ev ++ [DbClose con; Log l m]).
    repeat split.
    + now rewrite <- !app_assoc.
    + rewrite !closes_app, !connects_app, Hc, Hn. reflexivity.
    + rewrite !connects_app, Hn. cbn. lia.
    + intros con' Hin. apply in_app_or in Hin.
      destruct Hin as [[Heq | [Heq | []]] | Hin]; try discriminate.
      * injection Heq as <-.
        exists ([DbConnect con; Log INFO (Connected con)] ++ ev), l, m.
        now rewrite <- app_assoc.
      * apply in_app_or in Hin. destruct Hin as [Hin | Hin].
        -- now apply keeps_connection_not_connect in Hin.
        -- destruct Hin as [Heq | [Heq | []]]; discriminate.
Qed.

(** The configuration file is read before the [try] block: an error of
    [load_config] leaves [main]; once read, the run is the one above. *)
Lemma main_loads_config E w :
  main E None w
  = match config_file E with
    | Ret cfg => main E (Some cfg) w
    | Raise e => (Raise e, w)
    end.
Proof.
  unfold main, bind, load_config, lift, ret.
  now destruct (config_file E).
Qed.

(** A run in which the database rejects the teams table and then fails to
    close: both exceptions are logged, none leaves [main]. *)
Example main_survives_broken_database :
  main (db_broken (fun _ _ => Responded 200 one_team_body))
    (Some sample_config) []
  = (Ret tt,
     [DbConnect DuckDB; Log INFO (Connected DuckDB); Call FetchTeams;
      HttpGet TeamsUrl [("X-Auth-Token", "TEST_TOKEN")];
      DbExecute DuckDB
        "CREATE OR REPLACE TABLE teams AS SELECT * FROM df_teams";
      Log ERROR (EtlFailed (OtherError "duckdb.Error"));
      DbClose DuckDB;
      Log WARNING (FailedToClose (OtherError "duckdb.ConnectionException"))]).
Proof. vm_compute. reflexivity. Qed.

Lemma get_db_connection_ret E cfg w con w1 :
  get_db_connection E cfg w = (Ret con, w1) ->
  w1 = w ++ [DbConnect con; Log INFO (Connected con)].
Proof.
  intro H. destruct (get_db_connection_cases E cfg w)
    as [(e & He) | (con' & Hc)].
  - rewrite He in H. discriminate.
  - rewrite Hc in H. now injection H as <- <-.
Qed.

(** The run of [main] when the connection is made: the steps, the
    [except] clause, the [finally] block. *)
Lemma main_connected E cfg w con w1 :
  get_db_connection E cfg w = (Ret con, w1) ->
  main E (Some cfg) w
  = finally_block E (Some con)
      (except_log
         (etl_steps E cfg [("X-Auth-Token", api_token cfg)] con w1)).
Proof. intro H. unfold main, bind, ret, try_block. now rewrite H. Qed.

(** C6. When the teams fetch returns an empty frame, [main] logs the
    abort and goes straight to closing the connection: the run never
    enters [fetch_matches] nor [fetch_all_players], and sends no request
    other than the teams request. *)
Theorem no_teams_aborts E cfg w con w1 df_teams w2 :
  get_db_connection E cfg w = (Ret con, w1) ->
  fetch_teams E [("X-Auth-Token", api_token cfg)] con
    (lower (database_type cfg)) w1 = (Ret df_teams, w2) ->
  frame_empty df_teams = true ->
  main E (Some cfg) w
  = finally_block E (Some con) (w2 ++ [Log ERROR NoTeamsFetched])
  /\ exists new,
       snd (main E (Some cfg) w) = w ++ new
       /\ ~ In (Call FetchMatches) new
       /\ ~ In (Call FetchAllPlayers) new
       /\ forall u h, In (HttpGet u h) new -> u = TeamsUrl.
Proof.
  intros Hcon Hteams Hempty.
  assert (Hmain : main E (Some cfg) w
                  = finally_block E (Some con)
                      (w2 ++ [Log ERROR NoTeamsFetched])).
  { rewrite (main_connected E cfg w con w1 Hcon).
    unfold etl_steps, bind. now rewrite Hteams, Hempty. }
  split; [exact Hmain |].
  rewrite Hmain.
  pose proof (get_db_connection_ret E cfg w con w1 Hcon) as Hw1.
  assert (Hstage : emits teams_stage
                     (fetch_teams E [("X-Auth-Token", api_token cfg)] con
                        (lower (database_type cfg)))).
  { apply emits_fetch_teams; [apply plain_teams_stage | |];
      repeat split; try discriminate.
    intros u h H. now injection H as <- _. }
  destruct (Hstage w1) as (ev & Hev & HP).
  rewrite Hteams in Hev. cbn [snd] in Hev.
  destruct (finally_block_closes E con (w2 ++ [Log ERROR NoTeamsFetched]))
    as (l & m & ->).
  exists ([DbConnect con; Log INFO (Connected con)] ++ ev
            ++ [Log ERROR NoTeamsFetched] ++ [DbClose con; Log l m]).
  assert (Hall : Forall teams_stage
                   ([DbConnect con; Log INFO (Connected con)] ++ ev
                      ++ [Log ERROR NoTeamsFetched]
                      ++ [DbClose con; Log l m])).
  { apply Forall_app. split.
    - repeat constructor; discriminate.
    - apply Forall_app. split; [assumption |].
      repeat constructor; discriminate. }
  rewrite Forall_forall in Hall. repeat split.
  - cbn [snd]. rewrite Hev, Hw1. now rewrite <- !app_assoc.
  - intro Hin. now destruct (Hall _ Hin) as (H & _).
  - intro Hin. now destruct (Hall _ Hin) as (_ & H & _).
  - intros u h Hin. destruct (Hall _ Hin) as (_ & _ & H). now apply (H u h).
Qed.

Lemma no_teams_aborts_witness :
  main api_down (Some sample_config) []
  = finally_block api_down (Some DuckDB)
      (snd (fetch_teams api_down [("X-Auth-Token", "TEST_TOKEN")] DuckDB
              "duckdb" [DbConnect DuckDB; Log INFO (Connected DuckDB)])
         ++ [Log ERROR NoTeamsFetched])
  /\ exists new,
       snd (main api_down (Some sample_config) []) = [] ++ new
       /\ ~ In (Call FetchMatches) new
       /\ ~ In (Call FetchAllPlayers) new
       /\ forall u h, In (HttpGet u h) new -> u = TeamsUrl.
Proof.
  apply (no_teams_aborts api_down sample_config [] DuckDB
           [DbConnect DuckDB; Log INFO (Connected DuckDB)] empty_frame).
  - reflexivity.
  - vm_compute. reflexivity.
  - reflexivity.
Defined.

Lemma any_event_plain (e : event) : plain e = true -> True.
Proof. intros _. exact I. Qed.

(** The first event of a call of [fetch_all_players] is its entry. *)
Lemma fetch_all_players_starts E df_teams h con db_type rpm r d w :
  exists rest,
    snd (fetch_all_players E df_teams h con db_type rpm r d w)
    = w ++ Call FetchAllPlayers :: rest.
Proof.
  unfold fetch_all_players. unfold bind at 1, emit.
  match goal with
  | |- context [snd (?m (w ++ [Call FetchAllPlayers]))] =>
      assert (Hm : emits (fun _ => True) m)
  end.
  { destruct (Qeq_bool rpm 0); [apply emits_raise |].
    apply emits_bind; [apply emits_lift | intro ids].
    apply emits_bind;
      [apply emits_players_loop; [apply any_event_plain | easy] | intro acc].
    apply emits_bind; [apply emits_lift | intro].
    apply emits_bind; [apply emits_lift | intro].
    apply emits_bind; [apply emits_db_write, any_event_plain | intro].
    apply emits_bind; [apply emits_logging, any_event_plain | intro].
    apply emits_bind; [apply emits_report_missing, any_event_plain | intro].
    apply emits_ret. }
  destruct (Hm (w ++ [Call FetchAllPlayers])) as (ev & -> & _).
  exists ev. now rewrite <- app_assoc.
Qed.

(** A failed matches fetch is an ordinary return with an empty frame. *)
Lemma fetch_matches_exhausted E h con db_type season w :
  (forall i, (i < 3)%nat ->
             attempt_fails (http_get E (gets w + i) (MatchesUrl season))) ->
  exists w', fetch_matches E h con db_type season w = (Ret empty_frame, w').
Proof.
  intro Hfail. unfold fetch_matches. unfold bind at 1, emit.
  unfold bind at 1.
  unfold fetch_json. change (Z.to_nat 3) with 3%nat.
  assert (Hd : (0 <= 2)%Q) by (unfold Qle; simpl; lia).
  destruct (fetch_json_loop_exhausted E (MatchesUrl season) h 2%Q Hd 3 0
              (w ++ [Call FetchMatches])) as (new & -> & _).
  { intros i Hi. rewrite gets_app. cbn [gets filter is_get List.length].
    rewrite Nat.add_0_r. now apply Hfail. }
  cbn. now eexists.
Qed.

(** C7. When the teams fetch returns a frame that is not empty, whatever
    frame the matches fetch returns, empty or not, [main] goes on to
    [fetch_all_players], called on the teams frame with the settings of
    the configuration: nothing in the call depends on the matches.  A
    matches fetch whose attempts all fail is such a return, with an empty
    frame, so it does not abort the run. *)
Theorem matches_do_not_gate_players E cfg w con w1 df_teams w2 :
  get_db_connection E cfg w = (Ret con, w1) ->
  fetch_teams E [("X-Auth-Token", api_token cfg)] con
    (lower (database_type cfg)) w1 = (Ret df_teams, w2) ->
  frame_empty df_teams = false ->
  (forall df_matches w3,
      fetch_matches E [("X-Auth-Token", api_token cfg)] con
        (lower (database_type cfg)) 2025 w2 = (Ret df_matches, w3) ->
      main E (Some cfg) w
      = finally_block E (Some con)
          (except_log
             (bind (fetch_all_players E df_teams
                      [("X-Auth-Token", api_token cfg)] con
                      (lower (database_type cfg)) (requests_per_min cfg)
                      (retries_per_team cfg) (sleep_between_retries cfg))
                (fun _ => logging INFO RunComplete) w3))
      /\ exists rest,
           snd (main E (Some cfg) w) = w3 ++ Call FetchAllPlayers :: rest)
  /\ ((forall i, (i < 3)%nat ->
                 attempt_fails (http_get E (gets w2 + i) (MatchesUrl 2025))) ->
      exists w3,
        fetch_matches E [("X-Auth-Token", api_token cfg)] con
          (lower (database_type cfg)) 2025 w2 = (Ret empty_frame, w3)
        /\ frame_empty empty_frame = true).
Proof.
  intros Hcon Hteams Hne. split.
  - intros df_matches w3 Hmatches.
    assert (Hmain :
      main E (Some cfg) w
      = finally_block E (Some con)
          (except_log
             (bind (fetch_all_players E df_teams
                      [("X-Auth-Token", api_token cfg)] con
                      (lower (database_type cfg)) (requests_per_min cfg)
                      (retries_per_team cfg) (sleep_between_retries cfg))
                (fun _ => logging INFO RunComplete) w3))).
    { rewrite (main_connected E cfg w con w1 Hcon).
      unfold etl_steps. unfold bind at 1. rewrite Hteams, Hne.
      unfold bind at 1. now rewrite Hmatches. }
    split; [exact Hmain |]. rewrite Hmain.
    destruct (fetch_all_players_starts E df_teams
                [("X-Auth-Token", api_token cfg)] con
                (lower (database_type cfg)) (requests_per_min cfg)
                (retries_per_team cfg) (sleep_between_retries cfg) w3)
      as (rest & Hrest).
    unfold bind.
    destruct (fetch_all_players E df_teams _ con _ _ _ _ w3)
      as [[res | e] w4]; cbn [snd] in Hrest; subst w4.
    + unfold logging, emit. cbn [except_log].
      destruct (finally_block_closes E con
                  ((w3 ++ Call FetchAllPlayers :: rest)
                     ++ [Log INFO RunComplete])) as (l & m & ->).
      cbn [snd]. eexists. rewrite <- !app_assoc. cbn [app]. reflexivity.
    + cbn [except_log].
      destruct (finally_block_closes E con
                  ((w3 ++ Call FetchAllPlayers :: rest)
                     ++ [Log ERROR (EtlFailed e)])) as (l & m & ->).
      cbn [snd]. eexists. rewrite <- !app_assoc. cbn [app]. reflexivity.
  - intro Hfail.
    destruct (fetch_matches_exhausted E [("X-Auth-Token", api_token cfg)]
                con (lower (database_type cfg)) 2025 w2 Hfail) as (w3 & ->).
    now exists w3.
Qed.

Lemma matches_do_not_gate_players_witness :
  (exists w3,
      fetch_matches api_scenario test_headers DuckDB "duckdb" 2025
        scenario_teams_fetched = (Ret empty_frame, w3)
      /\ frame_empty empty_frame = true)
  /\ exists rest,
       snd (main api_scenario (Some sample_config) [])
       = scenario_matches_fetched ++ Call FetchAllPlayers :: rest.
Proof.
  assert (Hcon : get_db_connection api_scenario sample_config []
                 = (Ret DuckDB, scenario_connected)) by reflexivity.
  assert (Hteams : fetch_teams api_scenario
                     [("X-Auth-Token", api_token sample_config)] DuckDB
                     (lower (database_type sample_config)) scenario_connected
                   = (Ret two_teams, scenario_teams_fetched))
    by (vm_compute; reflexivity).
  assert (Hne : frame_empty two_teams = false) by reflexivity.
  destruct (matches_do_not_gate_players api_scenario sample_config []
              DuckDB scenario_connected two_teams scenario_teams_fetched
              Hcon Hteams Hne) as [Hplayers Hfailure].
  split.
  - apply Hfailure. intros i _. cbn. discriminate.
  - apply (Hplayers empty_frame scenario_matches_fetched).
    vm_compute. reflexivity.
Defined.

(** The scenario as a whole: the players of team 1 are stored, team 2 is
    reported as failed, the run completes and closes its connection. *)
Example scenario_players :
  fst (fetch_all_players api_scenario two_teams test_headers DuckDB "duckdb"
         10 1 0 [])
  = Ret ({| columns := ["id"; "name"; "team_id"];
            records := [[("id", JNum 7); ("name", JStr "Saka");
                         ("team_id", JNum 1)];
                        [("id", JNum 8); ("name", JStr "Rice");
                         ("team_id", JNum 1)]] |},
         [JNum 2]).
Proof. vm_compute. reflexivity. Qed.

(** * Further properties of the script *)

Lemma sleeps_app (w1 w2 : list event) : sleeps (w1 ++ w2) = sleeps w1 ++ sleeps w2.
Proof. unfold sleeps. apply flat_map_app. Qed.

Lemma stages_app (w1 w2 : list event) : stages (w1 ++ w2) = stages w1 ++ stages w2.
Proof. unfold stages. apply flat_map_app. Qed.

Lemma statements_app (w1 w2 : list event) :
  statements (w1 ++ w2) = statements w1 ++ statements w2.
Proof. unfold statements. apply flat_map_app. Qed.

Lemma logged_app (w1 w2 : list event) : logged (w1 ++ w2) = logged w1 ++ logged w2.
Proof. unfold logged. apply flat_map_app. Qed.

(** ** [fetch_json], whatever the API does *)




(** ** [fetch_team_players], whatever the API does *)

Lemma fetch_team_players_loop_outcome E id h d :
  forall k a w,
    (exists new,
        fetch_team_players_loop E id h d k a w = (Ret [], w ++ new)
        /\ gets new = k /\ gets_only (TeamUrl id) h new
        /\ sleeps new = repeat d k
        /\ forall i, (i < k)%nat ->
                     attempt_fails (http_get E (gets w + i) (TeamUrl id)))
    \/ (exists body pre,
           fetch_team_players_loop E id h d k a w
           = (tag_squad id body, w ++ pre ++ [HttpGet (TeamUrl id) h])
           /\ (gets pre < k)%nat /\ gets_only (TeamUrl id) h pre
           /\ sleeps pre = repeat d (gets pre)
           /\ (forall i, (i < gets pre)%nat ->
                         attempt_fails (http_get E (gets w + i) (TeamUrl id)))
           /\ http_get E (gets w + gets pre) (TeamUrl id)
              = Responded 200 body)
    \/ (exists l m,
           fetch_team_players_loop E id h d k a w
           = (Raise negative_sleep, w ++ [HttpGet (TeamUrl id) h; Log l m])
           /\ (d < 0)%Q /\ (0 < k)%nat
           /\ attempt_fails (http_get E (gets w) (TeamUrl id))).
Proof.
  induction k as [| k IH]; intros a w.
  - left. exists [Log WARNING (AllAttemptsFailed id)]. repeat split.
    + repeat constructor; discriminate.
    + intros i Hi. lia.
  - rewrite fetch_team_players_loop_step.
    assert (Hnext : forall l m,
      attempt_fails (http_get E (gets w) (TeamUrl id)) ->
      let w1 := w ++ [HttpGet (TeamUrl id) h; Log l m; Sleep d] in
      Qle_bool 0 d = true ->
      (exists new,
          fetch_team_players_loop E id h d k (a + 1) w1 = (Ret [], w ++ new)
          /\ gets new = S k /\ gets_only (TeamUrl id) h new
          /\ sleeps new = repeat d (S k)
          /\ forall i, (i < S k)%nat ->
                       attempt_fails (http_get E (gets w + i) (TeamUrl id)))
      \/ (exists body pre,
             fetch_team_players_loop E id h d k (a + 1) w1
             = (tag_squad id body, w ++ pre ++ [HttpGet (TeamUrl id) h])
             /\ (gets pre < S k)%nat /\ gets_only (TeamUrl id) h pre
             /\ sleeps pre = repeat d (gets pre)
             /\ (forall i, (i < gets pre)%nat ->
                           attempt_fails
                             (http_get E (gets w + i) (TeamUrl id)))
             /\ http_get E (gets w + gets pre) (TeamUrl id)
                = Responded 200 body)
      \/ (exists l' m',
             fetch_team_players_loop E id h d k (a + 1) w1
             = (Raise negative_sleep,
                w ++ [HttpGet (TeamUrl id) h; Log l' m'])
             /\ (d < 0)%Q /\ (0 < S k)%nat
             /\ attempt_fails (http_get E (gets w) (TeamUrl id)))).
    { intros l m H0 w1 Hd.
      assert (Hg : gets w1 = S (gets w)).
      { unfold w1. rewrite gets_app. cbn. lia. }
      assert (Hblock : gets_only (TeamUrl id) h
                         [HttpGet (TeamUrl id) h; Log l m; Sleep d]).
      { repeat constructor; discriminate. }
      destruct (IH (a + 1) w1)
        as [(new & Hrun & Hn & Hgo & Hs & Hf)
           | [(body & pre & Hrun & Hn & Hgo & Hs & Hf & Hok)
             | (l' & m' & _ & Hneg & _)]].
      - left. exists ([HttpGet (TeamUrl id) h; Log l m; Sleep d] ++ new).
        rewrite Hrun. unfold w1. rewrite <- app_assoc.
        split; [reflexivity |]. split; [rewrite gets_app; cbn; lia |].
        split; [now apply gets_only_app |].
        split; [rewrite sleeps_app, Hs; reflexivity |].
        intros [| i] Hi; [now rewrite Nat.add_0_r |].
        replace (gets w + S i)%nat with (gets w1 + i)%nat by lia.
        apply Hf. lia.
      - right. left.
        exists body, ([HttpGet (TeamUrl id) h; Log l m; Sleep d] ++ pre).
        rewrite Hrun. unfold w1. rewrite <- !app_assoc.
        assert (Hgp : gets ([HttpGet (TeamUrl id) h; Log l m; Sleep d] ++ pre)
                      = S (gets pre)) by (rewrite gets_app; cbn; lia).
        split; [reflexivity |]. rewrite Hgp.
        split; [lia |]. split; [now apply gets_only_app |].
        split; [rewrite sleeps_app, Hs; reflexivity |]. split.
        + intros [| i] Hi; [now rewrite Nat.add_0_r |].
          replace (gets w + S i)%nat with (gets w1 + i)%nat by lia.
          apply Hf. lia.
        + replace (gets w + S (gets pre))%nat with (gets w1 + gets pre)%nat
            by lia.
          exact Hok.
      - rewrite (Qle_bool_negative d Hneg) in Hd. discriminate. }
    assert (Hstop : forall l m,
      attempt_fails (http_get E (gets w) (TeamUrl id)) ->
      Qle_bool 0 d = false ->
      exists l' m',
        (Raise negative_sleep : outcome (list json),
         w ++ [HttpGet (TeamUrl id) h; Log l m])
        = (Raise negative_sleep, w ++ [HttpGet (TeamUrl id) h; Log l' m'])
        /\ (d < 0)%Q /\ (0 < S k)%nat
        /\ attempt_fails (http_get E (gets w) (TeamUrl id))).
    { intros l m H0 Hd. exists l, m. repeat split; [| lia | exact H0].
      now apply Qle_bool_false. }
    destruct (http_get E (gets w) (TeamUrl id)) as [s body | msg] eqn:Hans.
    + destruct (s =? 200) eqn:Hs.
      * apply Z.eqb_eq in Hs. subst s. right. left. exists body, [].
        repeat split; cbn; try lia; try constructor.
        now rewrite Nat.add_0_r.
      * apply Z.eqb_neq in Hs. destruct (Qle_bool 0 d) eqn:Hd.
        -- now apply (Hnext WARNING (AttemptFailedForTeam (a + 1) id s)).
        -- right. right.
           now apply (Hstop WARNING (AttemptFailedForTeam (a + 1) id s)).
    + destruct (Qle_bool 0 d) eqn:Hd.
      * now apply (Hnext ERROR (RequestExceptionForTeam id msg)).
      * right. right.
        now apply (Hstop ERROR (RequestExceptionForTeam id msg)).
Qed.

Lemma dict_get_set_other k k' v d :
  k' <> k -> dict_get k' (dict_set k v d) = dict_get k' d.
Proof.
  intro Hne. induction d as [| [k0 v0] d IH]; cbn.
  - destruct (k =? k')%string eqn:Hk; [| reflexivity].
    apply String.eqb_eq in Hk. congruence.
  - destruct (k0 =? k)%string eqn:Hk0; cbn.
    + apply String.eqb_eq in Hk0. subst k0.
      destruct (k =? k')%string eqn:Hk; [| reflexivity].
      apply String.eqb_eq in Hk. congruence.
    + now rewrite IH.
Qed.

Lemma tag_players_retagged id :
  forall players,
    Forall (fun p => is_dict p = true) players ->
    exists l, tag_players id players = Ret l /\ Forall2 (retagged id) players l.
Proof.
  induction 1 as [| p players Hp _ (l & Hl & HF)].
  - exists []. split; [reflexivity | constructor].
  - destruct p as [| | | | | f]; try discriminate.
    cbn. rewrite Hl. eexists. split; [reflexivity |].
    constructor; [| assumption].
    exists f, (dict_set "team_id" id f). repeat split.
    + apply dict_get_set.
    + intros k Hk. now apply dict_get_set_other.
Qed.

(** X6. With [sleep_between >= 0], when the [k]-th attempt for a team,
    [k <= retries], is the first to be answered 200, with a squad that is a
    list of player objects, [fetch_team_players] returns the players of the
    squad in their order, each with [team_id] set to the requested
    identifier (replacing a [team_id] of the payload) and with every other
    field unchanged. *)
Theorem fetch_team_players_tags E id h r d w k fields players :
  (0 <= d)%Q ->
  1 <= k <= r ->
  (forall i, (i < Z.to_nat (k - 1))%nat ->
             attempt_fails (http_get E (gets w + i) (TeamUrl id))) ->
  http_get E (gets w + Z.to_nat (k - 1)) (TeamUrl id)
  = Responded 200 (JObj fields) ->
  dict_get "squad" fields = Some (JArr players) ->
  Forall (fun p => is_dict p = true) players ->
  exists tagged_players pre,
    fetch_team_players E id h r d w
    = (Ret tagged_players, w ++ pre ++ [HttpGet (TeamUrl id) h])
    /\ Z.of_nat (gets (pre ++ [HttpGet (TeamUrl id) h])) = k
    /\ Forall2 (retagged id) players tagged_players.
Proof.
  intros Hd Hk Hfail Hok Hsquad Hobj. unfold fetch_team_players.
  destruct (fetch_team_players_loop_success E id h d (JObj fields) Hd
              (Z.to_nat (k - 1)) (Z.to_nat r) 0 w ltac:(lia) Hfail Hok)
    as (pre & Hrun & Hn).
  destruct (tag_players_retagged id players Hobj) as (l & Hl & HF).
  exists l, pre. rewrite Hrun. cbn [tag_squad]. rewrite Hsquad, Hl.
  repeat split; [| assumption]. rewrite gets_app, Hn. cbn. lia.
Qed.

Lemma fetch_team_players_tags_witness :
  exists tagged_players pre,
    fetch_team_players api_retry_then_squad (JNum 9) [] 3 2%Q []
    = (Ret tagged_players, [] ++ pre ++ [HttpGet (TeamUrl (JNum 9)) []])
    /\ Z.of_nat (gets (pre ++ [HttpGet (TeamUrl (JNum 9)) []])) = 2
    /\ Forall2 (retagged (JNum 9))
         [JObj [("id", JNum 7); ("team_id", JNum 0)]; JObj [("id", JNum 8)]]
         tagged_players.
Proof.
  apply (fetch_team_players_tags api_retry_then_squad (JNum 9) [] 3 2%Q [] 2
           [("squad",
             JArr [JObj [("id", JNum 7); ("team_id", JNum 0)];
                   JObj [("id", JNum 8)]])]).
  - unfold Qle; simpl; lia.
  - lia.
  - intros i Hi. cbn in Hi. destruct i; [cbn; discriminate | lia].
  - reflexivity.
  - reflexivity.
  - repeat constructor.
Defined.





(** The other kind, on the same call with any delay: a squad that is
    [null]. *)
Example null_squad_leaves_fetch_team_players :
  fetch_team_players api_null_squad (JNum 1) [] 3 2%Q []
  = (Raise TypeError, [HttpGet (TeamUrl (JNum 1)) []]).
Proof. reflexivity. Qed.

Lemma emits_bind_lift P {A B} (o : outcome A) (f : A -> M B) :
  (forall a, o = Ret a -> emits P (f a)) -> emits P (bind (lift o) f).
Proof.
  intros Hf w. unfold bind, lift. destruct o as [a | e].
  - now apply Hf.
  - exists []. now rewrite app_nil_r.
Qed.

(** ** The events of each function, record by record *)

Section Steps.

Variable P : event -> Prop.
Hypothesis P_log : forall l m, inner_log m = true -> P (Log l m).
Hypothesis P_sleep : forall s, P (Sleep s).
Variable E : env.
Variable h : headers.

Lemma steps_log l m : inner_log m = true -> emits P (logging l m).
Proof. intro Hm. apply emits_emit. now apply P_log. Qed.

Lemma steps_sleep s : emits P (time_sleep s).
Proof.
  unfold time_sleep.
  destruct (Qle_bool 0 s); [apply emits_emit, P_sleep | apply emits_raise].
Qed.

Lemma steps_fetch_json u r d :
  P (HttpGet u h) -> emits P (fetch_json E u h r d).
Proof.
  intro Hu. unfold fetch_json. generalize 0 as a.
  induction (Z.to_nat r) as [| k IH]; intro a; cbn [fetch_json_loop].
  - apply emits_bind; [now apply steps_log | intro; apply emits_ret].
  - apply emits_bind; [now apply emits_requests_get |].
    intros [s body | msg].
    + destruct (s =? 200); [apply emits_ret |].
      apply emits_bind; [now apply steps_log | intro].
      apply emits_bind; [apply steps_sleep | intro]. apply IH.
    + apply emits_bind; [now apply steps_log | intro].
      apply emits_bind; [apply steps_sleep | intro]. apply IH.
Qed.

Lemma steps_fetch_team_players id r d :
  P (HttpGet (TeamUrl id) h) -> emits P (fetch_team_players E id h r d).
Proof.
  intro Hu. unfold fetch_team_players. generalize 0 as a.
  induction (Z.to_nat r) as [| k IH]; intro a;
    cbn [fetch_team_players_loop].
  - apply emits_bind; [now apply steps_log | intro; apply emits_ret].
  - apply emits_bind; [now apply emits_requests_get |].
    intros [s body | msg].
    + destruct (s =? 200); [apply emits_lift |].
      apply emits_bind; [now apply steps_log | intro].
      apply emits_bind; [apply steps_sleep | intro]. apply IH.
    + apply emits_bind; [now apply steps_log | intro].
      apply emits_bind; [apply steps_sleep | intro]. apply IH.
Qed.

Lemma steps_players_loop N r d iv :
  forall ids i all failed,
    (forall id, In id ids -> P (HttpGet (TeamUrl id) h)) ->
    emits P (players_loop E ids i N h r d iv all failed).
Proof.
  induction ids as [| id ids IH]; intros i all failed Hids;
    cbn [players_loop].
  - apply emits_ret.
  - apply emits_bind;
      [apply steps_fetch_team_players, Hids; now left | intro players].
    apply emits_bind; [now apply steps_log | intro].
    apply emits_bind; [apply steps_sleep | intro].
    apply IH. intros id' Hin. apply Hids. now right.
Qed.

Lemma steps_db_write con db_type sql :
  P (DbExecute con sql) -> emits P (db_write E con db_type sql).
Proof.
  intros Hsql w. unfold db_write, con_execute, ret.
  destruct (db_type =? "duckdb")%string;
    [| destruct (db_type =? "snowflake")%string].
  3: { exists []. now rewrite app_nil_r. }
  all: destruct (db_execute E con sql);
    (eexists; split; [reflexivity |]; now repeat constructor).
Qed.

Lemma steps_report_missing df_teams failed :
  emits P (report_missing df_teams failed).
Proof.
  unfold report_missing. destruct (is_nil failed); [apply emits_ret |].
  destruct (negb (has_column "id" df_teams)); [apply emits_raise |].
  destruct (negb (has_column "name" df_teams)); [apply emits_raise |].
  apply emits_bind; [now apply steps_log | intro]. now apply steps_log.
Qed.

(** [fetch_teams]: the entry, then the request, its retries, and the
    statement on the connection. *)
Lemma fetch_teams_events con db_type w :
  P (HttpGet TeamsUrl h) -> P (DbExecute con teams_sql) ->
  exists rest,
    snd (fetch_teams E h con db_type w) = w ++ Call FetchTeams :: rest
    /\ Forall P rest.
Proof.
  intros Hu Hsql. unfold fetch_teams. unfold bind at 1, emit.
  match goal with
  | |- context [snd (?m (w ++ [Call FetchTeams]))] =>
      assert (Hm : emits P m)
  end.
  { apply emits_bind; [now apply steps_fetch_json | intro data].
    apply emits_bind; [apply emits_lift | intros [|]].
    - apply emits_bind; [apply emits_lift | intro].
      apply emits_bind; [apply emits_lift | intro].
      apply emits_bind; [now apply steps_db_write | intro].
      apply emits_bind; [now apply steps_log | intro]. apply emits_ret.
    - apply emits_bind; [now apply steps_log | intro]. apply emits_ret. }
  destruct (Hm (w ++ [Call FetchTeams])) as (ev & -> & Hev).
  exists ev. now rewrite <- app_assoc.
Qed.

Lemma fetch_matches_events con db_type season w :
  P (HttpGet (MatchesUrl season) h) -> P (DbExecute con matches_sql) ->
  exists rest,
    snd (fetch_matches E h con db_type season w)
    = w ++ Call FetchMatches :: rest
    /\ Forall P rest.
Proof.
  intros Hu Hsql. unfold fetch_matches. unfold bind at 1, emit.
  match goal with
  | |- context [snd (?m (w ++ [Call FetchMatches]))] =>
      assert (Hm : emits P m)
  end.
  { apply emits_bind; [now apply steps_fetch_json | intro data].
    apply emits_bind; [apply emits_lift | intros [|]].
    - apply emits_bind; [apply emits_lift | intro].
      apply emits_bind; [apply emits_lift | intro].
      apply emits_bind; [now apply steps_db_write | intro].
      apply emits_bind; [now apply steps_log | intro]. apply emits_ret.
    - apply emits_bind; [now apply steps_log | intro]. apply emits_ret. }
  destruct (Hm (w ++ [Call FetchMatches])) as (ev & -> & Hev).
  exists ev. now rewrite <- app_assoc.
Qed.

Lemma fetch_all_players_events df_teams con db_type rpm r d w :
  (forall ids id, column "id" df_teams = Ret ids -> In id ids ->
                  P (HttpGet (TeamUrl id) h)) ->
  P (DbExecute con players_sql) ->
  exists rest,
    snd (fetch_all_players E df_teams h con db_type rpm r d w)
    = w ++ Call FetchAllPlayers :: rest
    /\ Forall P rest.
Proof.
  intros Hu Hsql. unfold fetch_all_players. unfold bind at 1, emit.
  match goal with
  | |- context [snd (?m (w ++ [Call FetchAllPlayers]))] =>
      assert (Hm : emits P m)
  end.
  { destruct (Qeq_bool rpm 0); [apply emits_raise |].
    apply emits_bind_lift. intros ids Hids.
    apply emits_bind;
      [apply steps_players_loop; intros id Hin; now apply (Hu ids)
      | intro acc].
    apply emits_bind; [apply emits_lift | intro].
    apply emits_bind; [apply emits_lift | intro].
    apply emits_bind; [now apply steps_db_write | intro].
    apply emits_bind; [now apply steps_log | intro].
    apply emits_bind; [apply steps_report_missing | intro].
    apply emits_ret. }
  destruct (Hm (w ++ [Call FetchAllPlayers])) as (ev & -> & Hev).
  exists ev. now rewrite <- app_assoc.
Qed.

End Steps.

(** ** Counting the requests *)

Lemma sends_le n n' {A} (m : M A) :
  sends_at_most n m -> (n <= n')%nat -> sends_at_most n' m.
Proof.
  intros Hm Hle w. destruct (Hm w) as (ev & Hev & Hn).
  exists ev. split; [assumption | lia].
Qed.

Lemma sends_none {A} (m : M A) :
  emits (fun e => is_get e = false) m -> sends_at_most 0 m.
Proof.
  intros Hm w. destruct (Hm w) as (ev & Hev & HP).
  exists ev. split; [assumption |]. clear Hev.
  unfold gets. induction HP as [| e ev He _ IH]; [cbn; lia |].
  cbn [filter]. now rewrite He.
Qed.

Lemma sends_bind n n' {A B} (m : M A) (f : A -> M B) :
  sends_at_most n m -> (forall a, sends_at_most n' (f a)) ->
  sends_at_most (n + n') (bind m f).
Proof.
  intros Hm Hf w. destruct (Hm w) as (ev & Hev & Hn). unfold bind.
  destruct (m w) as [[a | e] w1]; cbn [snd] in Hev; subst w1.
  - destruct (Hf a (w ++ ev)) as (ev' & Hev' & Hn').
    exists (ev ++ ev'). rewrite Hev', app_assoc.
    split; [reflexivity |]. rewrite gets_app. lia.
  - exists ev. split; [reflexivity | lia].
Qed.

Lemma sends_bind_lift n {A B} (o : outcome A) (f : A -> M B) :
  (forall a, o = Ret a -> sends_at_most n (f a)) ->
  sends_at_most n (bind (lift o) f).
Proof.
  intros Hf w. unfold bind, lift. destruct o as [a | e].
  - now apply Hf.
  - exists []. rewrite app_nil_r. split; [reflexivity | cbn; lia].
Qed.

Lemma no_get_log l m : emits (fun e => is_get e = false) (logging l m).
Proof. now apply emits_emit. Qed.

Lemma no_get_sleep s : emits (fun e => is_get e = false) (time_sleep s).
Proof.
  unfold time_sleep.
  destruct (Qle_bool 0 s); [now apply emits_emit | apply emits_raise].
Qed.

Lemma sends_fetch_team_players E id h r d :
  sends_at_most (Z.to_nat r) (fetch_team_players E id h r d).
Proof.
  intro w. unfold fetch_team_players.
  destruct (fetch_team_players_loop_outcome E id h d (Z.to_nat r) 0 w)
    as [(new & -> & Hn & _)
       | [(body & pre & -> & Hn & _) | (l & m & -> & _ & Hk & _)]].
  - exists new. split; [reflexivity | lia].
  - exists (pre ++ [HttpGet (TeamUrl id) h]). split; [reflexivity |].
    rewrite gets_app. cbn. lia.
  - exists [HttpGet (TeamUrl id) h; Log l m]. split; [reflexivity |].
    cbn. lia.
Qed.

Lemma sends_players_loop E N h r d iv :
  forall ids i all failed,
    sends_at_most (List.length ids * Z.to_nat r)
      (players_loop E ids i N h r d iv all failed).
Proof.
  induction ids as [| id ids IH]; intros i all failed; cbn [players_loop].
  - apply sends_none, emits_ret.
  - apply (sends_le (Z.to_nat r + (0 + (0 + List.length ids * Z.to_nat r))));
      [| cbn; lia].
    apply sends_bind; [apply sends_fetch_team_players | intro players].
    apply sends_bind; [apply sends_none, no_get_log | intro].
    apply sends_bind; [apply sends_none, no_get_sleep | intro].
    apply IH.
Qed.

Lemma plain_no_get e : plain e = true -> is_get e = false.
Proof. destruct e; try discriminate; reflexivity. Qed.

Lemma sends_fetch_all_players E df_teams h con db_type rpm r d :
  sends_at_most (List.length (records df_teams) * Z.to_nat r)
    (fetch_all_players E df_teams h con db_type rpm r d).
Proof.
  unfold fetch_all_players.
  apply (sends_le (0 + List.length (records df_teams) * Z.to_nat r));
    [| lia].
  apply sends_bind; [apply sends_none; now apply emits_emit | intro].
  destruct (Qeq_bool rpm 0).
  { apply (sends_le 0); [apply sends_none, emits_raise | lia]. }
  apply sends_bind_lift. intros ids Hids.
  rewrite <- (column_length _ _ _ Hids).
  apply (sends_le (List.length ids * Z.to_nat r + 0)); [| lia].
  apply sends_bind; [apply sends_players_loop | intro acc].
  apply sends_none.
  apply emits_bind; [apply emits_lift | intro].
  apply emits_bind; [apply emits_lift | intro].
  apply emits_bind; [apply emits_db_write, plain_no_get | intro].
  apply emits_bind; [apply no_get_log | intro].
  apply emits_bind; [apply emits_report_missing, plain_no_get | intro].
  apply emits_ret.
Qed.

(** X8. Whatever the API answers and however the call ends,
    [fetch_all_players] sends at most [len(df_teams) * retries] requests,
    and each of them goes, with the headers it was given, to the URL of a
    team whose identifier is in the [id] column of the teams frame. *)
Theorem fetch_all_players_request_bound E df_teams h con db_type rpm r d w :
  exists new,
    snd (fetch_all_players E df_teams h con db_type rpm r d w) = w ++ new
    /\ (gets new <= List.length (records df_teams) * Z.to_nat r)%nat
    /\ forall u h',
         In (HttpGet u h') new ->
         h' = h
         /\ exists ids id,
              column "id" df_teams = Ret ids /\ In id ids /\ u = TeamUrl id.
Proof.
  destruct (sends_fetch_all_players E df_teams h con db_type rpm r d w)
    as (new & Hnew & Hn).
  exists new. split; [assumption |]. split; [assumption |].
  destruct (fetch_all_players_events
              (fun e => forall u h',
                   e = HttpGet u h' ->
                   h' = h
                   /\ exists ids id,
                        column "id" df_teams = Ret ids /\ In id ids
                        /\ u = TeamUrl id)
              ltac:(discriminate) ltac:(discriminate)
              E h df_teams con db_type rpm r d w)
    as (rest & Hrest & HP).
  - intros ids id Hids Hin u h' Heq. injection Heq as <- <-.
    split; [reflexivity |]. now exists ids, id.
  - discriminate.
  - rewrite Hnew in Hrest. apply app_inv_head in Hrest. subst new.
    intros u h' [Hin | Hin]; [discriminate |].
    rewrite Forall_forall in HP. now apply (HP _ Hin).
Qed.

(** ** [fetch_all_players]: what can leave it, and what it reports *)












Lemma failed_of_flagged :
  forall ids (results : list (list json * list event)),
    failed_of ids results
    = flagged ids (map (fun re => is_nil (fst re)) results).
Proof.
  unfold failed_of, flagged.
  induction ids as [| id ids IH]; intros [| re results]; try reflexivity.
  cbn [combine map flat_map filter fst snd].
  destruct (is_nil (fst re)); cbn [app map fst]; now rewrite IH.
Qed.

Lemma flagged_incl :
  forall ids flags id, In id (flagged ids flags) -> In id ids.
Proof.
  unfold flagged. induction ids as [| x ids IH]; intros [| b flags] id Hin;
    try destruct Hin.
  cbn [combine filter snd] in Hin. destruct b; cbn in Hin.
  - destruct Hin as [<- | Hin]; [now left | right; now apply (IH flags)].
  - right. now apply (IH flags).
Qed.

Lemma flagged_NoDup :
  forall ids flags, NoDup ids -> NoDup (flagged ids flags).
Proof.
  induction ids as [| x ids IH]; intros [| b flags] Hnd;
    try (unfold flagged; cbn; constructor).
  inversion Hnd as [| ? ? Hx Hrest]; subst.
  unfold flagged. cbn [combine filter snd]. destruct b; cbn [map fst].
  - constructor; [| now apply IH].
    intro Hin. apply Hx. now apply (flagged_incl ids flags).
  - now apply IH.
Qed.

(** X10. When [fetch_all_players] returns, [failed_teams] is the
    identifiers of the [id] column whose fetch gave no player, in the order
    of the column, one entry for each such row; with identifiers that are
    all different, no team is reported twice. *)
Theorem failed_teams_in_order E df_teams h con db_type rpm r d w df_players
    failed_teams w' :
  fetch_all_players E df_teams h con db_type rpm r d w
  = (Ret (df_players, failed_teams), w') ->
  exists ids results,
    column "id" df_teams = Ret ids
    /\ Forall2 (fetched E h r d) ids results
    /\ failed_teams = flagged ids (map (fun re => is_nil (fst re)) results)
    /\ (forall id, In id failed_teams -> In id ids)
    /\ (List.length failed_teams <= List.length ids)%nat
    /\ (NoDup ids -> NoDup failed_teams).
Proof.
  intro Hrun. apply fetch_all_players_ret in Hrun.
  destruct Hrun as (ids & all_players & w1 & df & tail & _ & Hids & Hloop & _).
  apply players_loop_ret in Hloop.
  destruct Hloop as (results & HF & _ & Hfailed & _).
  cbn [snd app] in Hfailed. rewrite failed_of_flagged in Hfailed.
  exists ids, results. subst failed_teams. repeat split; try assumption.
  - intros id. apply flagged_incl.
  - unfold flagged. rewrite length_map.
    etransitivity; [apply filter_length_le |].
    rewrite length_combine. apply Nat.le_min_l.
  - apply flagged_NoDup.
Qed.

Lemma failed_teams_in_order_witness :
  exists ids results,
    column "id" two_teams = Ret ids
    /\ Forall2 (fetched api_scenario test_headers 1 0%Q) ids results
    /\ [JNum 2] = flagged ids (map (fun re => is_nil (fst re)) results)
    /\ (forall id, In id [JNum 2] -> In id ids)
    /\ (List.length [JNum 2] <= List.length ids)%nat
    /\ (NoDup ids -> NoDup [JNum 2]).
Proof.
  apply (failed_teams_in_order api_scenario two_teams test_headers DuckDB
           "duckdb" 10%Q 1 0%Q []
           (fst (match fst (fetch_all_players api_scenario two_teams
                              test_headers DuckDB "duckdb" 10 1 0 []) with
                 | Ret res => res
                 | Raise _ => (empty_frame, [])
                 end))
           [JNum 2]
           (snd (fetch_all_players api_scenario two_teams test_headers DuckDB
                   "duckdb" 10 1 0 []))).
  vm_compute. reflexivity.
Defined.

Lemma db_write_ret E con db_type sql w w' :
  db_write E con db_type sql w = (Ret tt, w') ->
  w' = w ++ (if writes_table db_type then [DbExecute con sql] else []).
Proof.
  unfold db_write, con_execute, ret, writes_table.
  destruct (db_type =? "duckdb")%string;
    [| destruct (db_type =? "snowflake")%string]; cbn [orb];
    try (destruct (db_execute E con sql); [discriminate |]);
    intro H; injection H as <-; [reflexivity | reflexivity |].
  now rewrite app_nil_r.
Qed.

Lemma report_missing_ret df_teams failed w w' :
  report_missing df_teams failed w = (Ret tt, w') ->
  w' = w ++ (if is_nil failed then []
             else [Log WARNING TeamsMissingPlayers;
                   Log WARNING (MissingTeamNames failed)]).
Proof.
  unfold report_missing. destruct (is_nil failed).
  - intro H. injection H as <-. now rewrite app_nil_r.
  - destruct (negb (has_column "id" df_teams)); [discriminate |].
    destruct (negb (has_column "name" df_teams)); [discriminate |].
    unfold bind, logging, emit. intro H. injection H as <-.
    now rewrite <- app_assoc.
Qed.

Lemma no_statement_events ev :
  Forall (fun e => statements [e] = []) ev -> statements ev = [].
Proof.
  induction 1 as [| e ev He _ IH]; [reflexivity |].
  change (e :: ev) with ([e] ++ ev). now rewrite statements_app, He, IH.
Qed.

(** X11. When [fetch_all_players] returns, the statement that replaces
    the players table is the only statement it has run, once, after the
    last request and the last pacing sleep (none when [db_type] is neither
    [duckdb] nor [snowflake]); the call ends with the record that the
    table is updated, followed by the warning that names the failed teams
    exactly when some team has failed. *)
Theorem fetch_all_players_report E df_teams h con db_type rpm r d w
    df_players failed_teams w' :
  fetch_all_players E df_teams h con db_type rpm r d w
  = (Ret (df_players, failed_teams), w') ->
  exists loop_events,
    w' = w ++ Call FetchAllPlayers :: loop_events
           ++ (if writes_table db_type then [DbExecute con players_sql]
               else [])
           ++ closing_report failed_teams
    /\ statements loop_events = [].
Proof.
  unfold fetch_all_players. unfold bind at 1, emit.
  destruct (Qeq_bool rpm 0); [discriminate |].
  unfold bind at 1, lift.
  destruct (column "id" df_teams) as [ids | e0]; [| discriminate].
  unfold bind at 1.
  assert (Hloopev : emits (fun e => statements [e] = [])
                      (players_loop E ids 1
                         (Z.of_nat (List.length (records df_teams))) h r d
                         (60 / rpm)%Q [] [])).
  { apply steps_players_loop; reflexivity. }
  destruct (Hloopev (w ++ [Call FetchAllPlayers])) as (ev & Hev & HP).
  destruct (players_loop E ids 1 _ h r d _ [] [] _) as [[acc | e1] w1];
    [| discriminate].
  cbn [snd] in Hev. subst w1. unfold bind at 1, lift.
  destruct (json_normalize (JArr (fst acc))) as [df | e2]; [| discriminate].
  unfold bind at 1, lift.
  destruct (drop_duplicates "id" df) as [dfp | e3]; [| discriminate].
  unfold bind at 1.
  destruct (db_write E con db_type _ _) as [[[] | e4] w2] eqn:Hdb;
    [| discriminate].
  apply db_write_ret in Hdb. subst w2.
  unfold bind at 1, logging, emit. unfold bind at 1.
  destruct (report_missing df_teams (snd acc) _) as [[[] | e5] w3] eqn:Hrep;
    [| discriminate].
  apply report_missing_ret in Hrep. subst w3.
  unfold ret. intro H. injection H as _ <- <-.
  exists ev. split; [| now apply no_statement_events].
  unfold closing_report. rewrite <- !app_assoc. reflexivity.
Qed.

Lemma fetch_all_players_report_witness :
  exists loop_events,
    snd (fetch_all_players api_scenario two_teams test_headers DuckDB
           "duckdb" 10 1 0 [])
    = [] ++ Call FetchAllPlayers :: loop_events
         ++ (if writes_table "duckdb" then [DbExecute DuckDB players_sql]
             else [])
         ++ closing_report [JNum 2]
    /\ statements loop_events = [].
Proof.
  apply (fetch_all_players_report api_scenario two_teams test_headers DuckDB
           "duckdb" 10%Q 1 0%Q []
           (fst (match fst (fetch_all_players api_scenario two_teams
                              test_headers DuckDB "duckdb" 10 1 0 []) with
                 | Ret res => res
                 | Raise _ => (empty_frame, [])
                 end))).
  vm_compute. reflexivity.
Defined.

(** ** [fetch_teams] and [fetch_matches] *)

Lemma objects_flattened :
  forall items,
    Forall (fun t => is_dict t = true) items ->
    exists rs,
      map_outcome simple_json_normalize items = Ret rs /\ flattened items rs.
Proof.
  induction 1 as [| t items Ht _ (rs & Hrs & HF)].
  - exists []. split; [reflexivity | constructor].
  - destruct t as [| | | | | f]; try discriminate.
    cbn. rewrite Hrs. eexists. split; [reflexivity |].
    constructor; [now exists f | assumption].
Qed.

Lemma json_normalize_objects items :
  items <> [] ->
  Forall (fun t => is_dict t = true) items ->
  exists rs,
    json_normalize (JArr items) = Ret (frame_of rs) /\ flattened items rs.
Proof.
  intros Hne Hobj. destruct (objects_flattened items Hobj) as (rs & Hrs & HF).
  exists rs. split; [| assumption].
  destruct items; [congruence |]. cbn [json_normalize]. now rewrite Hrs.
Qed.

(** The default call of [fetch_json] when a request is answered. *)
Lemma fetch_json_answered E u h w k body :
  answered_at E u w k body ->
  exists pre,
    fetch_json E u h 3 2%Q w = (Ret body, w ++ pre ++ [HttpGet u h])
    /\ Z.of_nat (gets (pre ++ [HttpGet u h])) = k
    /\ statements (pre ++ [HttpGet u h]) = [].
Proof.
  intros (Hk & Hfail & Hok). unfold fetch_json.
  assert (Hd : (0 <= 2)%Q) by (unfold Qle; simpl; lia).
  destruct (fetch_json_loop_success E u h 2%Q body Hd (Z.to_nat (k - 1))
              (Z.to_nat 3) 0 w ltac:(lia) Hfail Hok)
    as (pre & Hrun & Hn & _).
  exists pre. split; [exact Hrun |]. split.
  - rewrite gets_app, Hn. cbn. lia.
  - assert (Hev : emits (fun e => statements [e] = [])
                    (fetch_json E u h 3 2%Q)).
    { apply steps_fetch_json; reflexivity. }
    destruct (Hev w) as (ev & Hsnd & HP). unfold fetch_json in Hsnd.
    rewrite Hrun in Hsnd. cbn [snd] in Hsnd. apply app_inv_head in Hsnd.
    rewrite Hsnd. now apply no_statement_events.
Qed.

Lemma fetch_json_never_answered E u h w :
  never_answered E u w ->
  exists ev,
    fetch_json E u h 3 2%Q w = (Ret JNull, w ++ ev)
    /\ gets ev = 3%nat /\ statements ev = [].
Proof.
  intro Hfail. unfold fetch_json. change (Z.to_nat 3) with 3%nat.
  assert (Hd : (0 <= 2)%Q) by (unfold Qle; simpl; lia).
  destruct (fetch_json_loop_exhausted E u h 2%Q Hd 3 0 w Hfail)
    as (ev & Hrun & Hn & _).
  exists ev. split; [exact Hrun |]. split; [exact Hn |].
  assert (Hev : emits (fun e => statements [e] = [])
                  (fetch_json E u h 3 2%Q)).
  { apply steps_fetch_json; reflexivity. }
  destruct (Hev w) as (ev' & Hsnd & HP). unfold fetch_json in Hsnd.
  change (Z.to_nat 3) with 3%nat in Hsnd.
  rewrite Hrun in Hsnd. cbn [snd] in Hsnd. apply app_inv_head in Hsnd.
  rewrite Hsnd. now apply no_statement_events.
Qed.

Lemma gets_after_call w f : gets (w ++ [Call f]) = gets w.
Proof. rewrite gets_app. cbn. lia. Qed.

Lemma answered_after_call E u w f k body :
  answered_at E u w k body -> answered_at E u (w ++ [Call f]) k body.
Proof. unfold answered_at. now rewrite gets_after_call. Qed.

Lemma never_answered_after_call E u w f :
  never_answered E u w -> never_answered E u (w ++ [Call f]).
Proof. unfold never_answered. now rewrite gets_after_call. Qed.

(** X2. When the teams request is answered 200, at the first, second or
    third attempt, with an object whose [teams] is a non-empty list of
    objects, and the database accepts the statement, [fetch_teams] returns
    a frame with one row per team, in the order of the payload, each row
    being the team flattened; it has then run one statement, the one that
    replaces the teams table (none when [db_type] is neither [duckdb] nor
    [snowflake]), after the request, and has recorded the update last. *)
Theorem fetch_teams_rows E h con db_type w k fields teams :
  answered_at E TeamsUrl w k (JObj fields) ->
  dict_get "teams" fields = Some (JArr teams) ->
  teams <> [] ->
  Forall (fun t => is_dict t = true) teams ->
  db_execute E con teams_sql = None ->
  exists rows requests,
    fetch_teams E h con db_type w
    = (Ret (frame_of rows),
       w ++ Call FetchTeams :: requests
         ++ (if writes_table db_type then [DbExecute con teams_sql] else [])
         ++ [Log INFO TeamsUpdated])
    /\ flattened teams rows
    /\ Z.of_nat (gets requests) = k
    /\ statements requests = [].
Proof.
  intros Hans Hteams Hne Hobj Hdb.
  destruct (fetch_json_answered E TeamsUrl h (w ++ [Call FetchTeams]) k
              (JObj fields) (answered_after_call _ _ _ _ _ _ Hans))
    as (pre & Hrun & Hn & Hst).
  destruct (json_normalize_objects teams Hne Hobj) as (rows & Hdf & HF).
  exists rows, (pre ++ [HttpGet TeamsUrl h]).
  split; [| now repeat split].
  unfold fetch_teams. unfold bind at 1, emit. unfold bind at 1.
  rewrite Hrun. unfold bind at 1, lift, present.
  assert (Htruthy : truthy (JObj fields) = true).
  { destruct fields; [discriminate | reflexivity]. }
  rewrite Htruthy. cbn [py_in]. rewrite Hteams.
  unfold bind at 1, lift. cbn [py_getitem]. rewrite Hteams.
  unfold bind at 1, lift. rewrite Hdf. unfold bind at 1.
  unfold db_write, con_execute, writes_table, teams_sql in *.
  rewrite Hdb.
  destruct (db_type =? "duckdb")%string;
    [| destruct (db_type =? "snowflake")%string]; cbn [orb];
    unfold bind, logging, emit, ret; rewrite <- !app_assoc; cbn [app];
    reflexivity.
Qed.

Lemma fetch_teams_rows_witness :
  exists rows requests,
    fetch_teams api_scenario test_headers DuckDB "duckdb" []
    = (Ret (frame_of rows),
       [] ++ Call FetchTeams :: requests
          ++ (if writes_table "duckdb" then [DbExecute DuckDB teams_sql]
              else [])
          ++ [Log INFO TeamsUpdated])
    /\ flattened
         [JObj [("id", JNum 1); ("name", JStr "Arsenal FC")];
          JObj [("id", JNum 2); ("name", JStr "Aston Villa FC")]] rows
    /\ Z.of_nat (gets requests) = 1
    /\ statements requests = [].
Proof.
  apply (fetch_teams_rows api_scenario test_headers DuckDB "duckdb" [] 1
           [("teams",
             JArr [JObj [("id", JNum 1); ("name", JStr "Arsenal FC")];
                   JObj [("id", JNum 2); ("name", JStr "Aston Villa FC")]])]).
  - split; [lia |]. split; [| reflexivity].
    intros i Hi. cbn in Hi. lia.
  - reflexivity.
  - discriminate.
  - repeat constructor.
  - reflexivity.
Defined.

(** X3. When the three requests for the teams all fail, or when the
    answer is a body for which [data and "teams" in data] is false (null,
    an empty object, an object without the key), [fetch_teams] returns the
    empty frame [pd.DataFrame()] without running a statement on the
    database, after at most three requests, and records last that the
    teams are not available. *)
Theorem fetch_teams_unavailable E h con db_type w :
  never_answered E TeamsUrl w
  \/ (exists k body,
         answered_at E TeamsUrl w k body /\ present "teams" body = Ret false) ->
  exists requests,
    fetch_teams E h con db_type w
    = (Ret empty_frame,
       w ++ Call FetchTeams :: requests ++ [Log ERROR TeamsNotAvailable])
    /\ statements requests = []
    /\ (gets requests <= 3)%nat.
Proof.
  intros [Hdown | (k & body & Hans & Hno)].
  - destruct (fetch_json_never_answered E TeamsUrl h (w ++ [Call FetchTeams])
                (never_answered_after_call _ _ _ _ Hdown))
      as (ev & Hrun & Hn & Hst).
    exists ev. split; [| split; [assumption | lia]].
    unfold fetch_teams. unfold bind at 1, emit. unfold bind at 1.
    rewrite Hrun. cbn. now rewrite <- !app_assoc.
  - destruct (fetch_json_answered E TeamsUrl h (w ++ [Call FetchTeams]) k
                body (answered_after_call _ _ _ _ _ _ Hans))
      as (pre & Hrun & Hn & Hst).
    exists (pre ++ [HttpGet TeamsUrl h]).
    split; [| split; [assumption | destruct Hans; lia]].
    unfold fetch_teams. unfold bind at 1, emit. unfold bind at 1.
    rewrite Hrun. unfold bind at 1, lift. rewrite Hno.
    unfold bind, logging, emit, ret. now rewrite <- !app_assoc.
Qed.

Lemma fetch_teams_unavailable_witness :
  exists requests,
    fetch_teams api_matches_only test_headers DuckDB "duckdb" []
    = (Ret empty_frame,
       [] ++ Call FetchTeams :: requests ++ [Log ERROR TeamsNotAvailable])
    /\ statements requests = []
    /\ (gets requests <= 3)%nat.
Proof.
  apply fetch_teams_unavailable. left.
  intros i _. cbn. discriminate.
Defined.

(** X4. When the matches request of a season is answered 200, at the
    first, second or third attempt, with an object whose [matches] is a
    non-empty list of objects, and the database accepts the statement,
    [fetch_matches] returns a frame with one row per match, in the order
    of the payload, each row being the match flattened; it has then run
    one statement, the one that replaces the matches table (none when
    [db_type] is neither [duckdb] nor [snowflake]), and has recorded the
    update last. *)
Theorem fetch_matches_rows E h con db_type season w k fields matches :
  answered_at E (MatchesUrl season) w k (JObj fields) ->
  dict_get "matches" fields = Some (JArr matches) ->
  matches <> [] ->
  Forall (fun t => is_dict t = true) matches ->
  db_execute E con matches_sql = None ->
  exists rows requests,
    fetch_matches E h con db_type season w
    = (Ret (frame_of rows),
       w ++ Call FetchMatches :: requests
         ++ (if writes_table db_type then [DbExecute con matches_sql] else [])
         ++ [Log INFO MatchesUpdated])
    /\ flattened matches rows
    /\ Z.of_nat (gets requests) = k
    /\ statements requests = [].
Proof.
  intros Hans Hmatches Hne Hobj Hdb.
  destruct (fetch_json_answered E (MatchesUrl season) h
              (w ++ [Call FetchMatches]) k (JObj fields)
              (answered_after_call _ _ _ _ _ _ Hans))
    as (pre & Hrun & Hn & Hst).
  destruct (json_normalize_objects matches Hne Hobj) as (rows & Hdf & HF).
  exists rows, (pre ++ [HttpGet (MatchesUrl season) h]).
  split; [| now repeat split].
  unfold fetch_matches. unfold bind at 1, emit. unfold bind at 1.
  rewrite Hrun. unfold bind at 1, lift, present.
  assert (Htruthy : truthy (JObj fields) = true).
  { destruct fields; [discriminate | reflexivity]. }
  rewrite Htruthy. cbn [py_in]. rewrite Hmatches.
  unfold bind at 1, lift. cbn [py_getitem]. rewrite Hmatches.
  unfold bind at 1, lift. rewrite Hdf. unfold bind at 1.
  unfold db_write, con_execute, writes_table, matches_sql in *.
  rewrite Hdb.
  destruct (db_type =? "duckdb")%string;
    [| destruct (db_type =? "snowflake")%string]; cbn [orb];
    unfold bind, logging, emit, ret; rewrite <- !app_assoc; cbn [app];
    reflexivity.
Qed.

Lemma fetch_matches_rows_witness :
  exists rows requests,
    fetch_matches api_matches_only test_headers Snowflake "snowflake" 2025 []
    = (Ret (frame_of rows),
       [] ++ Call FetchMatches :: requests
          ++ (if writes_table "snowflake"
              then [DbExecute Snowflake matches_sql] else [])
          ++ [Log INFO MatchesUpdated])
    /\ flattened
         [JObj [("id", JNum 100);
                ("score", JObj [("winner", JStr "HOME_TEAM")])]] rows
    /\ Z.of_nat (gets requests) = 1
    /\ statements requests = [].
Proof.
  apply (fetch_matches_rows api_matches_only test_headers Snowflake
           "snowflake" 2025 [] 1
           [("matches",
             JArr [JObj [("id", JNum 100);
                         ("score", JObj [("winner", JStr "HOME_TEAM")])]])]).
  - split; [lia |]. split; [| reflexivity].
    intros i Hi. cbn in Hi. lia.
  - reflexivity.
  - discriminate.
  - repeat constructor.
  - reflexivity.
Defined.

(** X5. When the three requests for the matches all fail, or when the
    answer is a body for which [data and "matches" in data] is false,
    [fetch_matches] returns the empty frame without running a statement on
    the database, after at most three requests, and records last that the
    matches are not available. *)
Theorem fetch_matches_unavailable E h con db_type season w :
  never_answered E (MatchesUrl season) w
  \/ (exists k body,
         answered_at E (MatchesUrl season) w k body
         /\ present "matches" body = Ret false) ->
  exists requests,
    fetch_matches E h con db_type season w
    = (Ret empty_frame,
       w ++ Call FetchMatches :: requests ++ [Log ERROR MatchesNotAvailable])
    /\ statements requests = []
    /\ (gets requests <= 3)%nat.
Proof.
  intros [Hdown | (k & body & Hans & Hno)].
  - destruct (fetch_json_never_answered E (MatchesUrl season) h
                (w ++ [Call FetchMatches])
                (never_answered_after_call _ _ _ _ Hdown))
      as (ev & Hrun & Hn & Hst).
    exists ev. split; [| split; [assumption | lia]].
    unfold fetch_matches. unfold bind at 1, emit. unfold bind at 1.
    rewrite Hrun. cbn. now rewrite <- !app_assoc.
  - destruct (fetch_json_answered E (MatchesUrl season) h
                (w ++ [Call FetchMatches]) k body
                (answered_after_call _ _ _ _ _ _ Hans))
      as (pre & Hrun & Hn & Hst).
    exists (pre ++ [HttpGet (MatchesUrl season) h]).
    split; [| split; [assumption | destruct Hans; lia]].
    unfold fetch_matches. unfold bind at 1, emit. unfold bind at 1.
    rewrite Hrun. unfold bind at 1, lift. rewrite Hno.
    unfold bind, logging, emit, ret. now rewrite <- !app_assoc.
Qed.

Lemma fetch_matches_unavailable_witness :
  exists requests,
    fetch_matches api_empty_after_timeout test_headers DuckDB "duckdb" 2025 []
    = (Ret empty_frame,
       [] ++ Call FetchMatches :: requests ++ [Log ERROR MatchesNotAvailable])
    /\ statements requests = []
    /\ (gets requests <= 3)%nat.
Proof.
  apply fetch_matches_unavailable. right.
  exists 2, (JObj [("id", JNum 57); ("squad", JArr [])]). split.
  - split; [lia |]. split; [| reflexivity].
    intros i Hi. cbn in Hi. destruct i; [exact I | lia].
  - reflexivity.
Defined.

(** ** [get_db_connection] and [main] *)

(** X12. [get_db_connection] returns a connection only for a database
    type that is, once in lower case, [duckdb] or [snowflake], and the
    connection is of that kind; it has then acquired it, and recorded it.
    So the [db_type] that [main] hands to the fetch functions is always
    one for which they write their table. *)
Theorem connection_matches_type E cfg w con w' :
  get_db_connection E cfg w = (Ret con, w') ->
  w' = w ++ [DbConnect con; Log INFO (Connected con)]
  /\ db_connect E con = None
  /\ writes_table (lower (database_type cfg)) = true
  /\ ((lower (database_type cfg) = "duckdb" /\ con = DuckDB)
      \/ (lower (database_type cfg) = "snowflake" /\ con = Snowflake)).
Proof.
  unfold get_db_connection, connect, raise, writes_table.
  destruct (lower (database_type cfg) =? "duckdb")%string eqn:Hd;
    [| destruct (lower (database_type cfg) =? "snowflake")%string eqn:Hs];
    [| | discriminate].
  - destruct (db_connect E DuckDB) eqn:Hc; [discriminate |].
    intro H. injection H as <- <-. apply String.eqb_eq in Hd.
    repeat split; try assumption. now left.
  - destruct (db_connect E Snowflake) eqn:Hc; [discriminate |].
    intro H. injection H as <- <-. apply String.eqb_eq in Hs.
    repeat split; try assumption. now right.
Qed.

Lemma connection_matches_type_witness :
  [DbConnect DuckDB; Log INFO (Connected DuckDB)]
  = [] ++ [DbConnect DuckDB; Log INFO (Connected DuckDB)]
  /\ db_connect api_down DuckDB = None
  /\ writes_table (lower (database_type upper_case_config)) = true
  /\ ((lower (database_type upper_case_config) = "duckdb" /\ DuckDB = DuckDB)
      \/ (lower (database_type upper_case_config) = "snowflake"
          /\ DuckDB = Snowflake)).
Proof.
  apply (connection_matches_type api_down upper_case_config []).
  reflexivity.
Defined.

(** X13. When the connection cannot be made, because the driver raises or
    because the database type is not supported, [main] returns normally
    after one record, the failure: it enters no stage, sends no request
    and closes nothing. *)
Theorem main_without_connection E cfg w e w1 :
  get_db_connection E cfg w = (Raise e, w1) ->
  main E (Some cfg) w = (Ret tt, w ++ [Log ERROR (EtlFailed e)]).
Proof.
  intro Hcon. unfold main, bind, ret, try_block. rewrite Hcon.
  destruct (get_db_connection_cases E cfg w) as [(e' & He) | (con & Hc)].
  - rewrite He in Hcon. now injection Hcon as <- <-.
  - rewrite Hc in Hcon. discriminate.
Qed.

Lemma main_without_connection_witness :
  main api_scenario (Some postgres_config) []
  = (Ret tt,
     [] ++ [Log ERROR (EtlFailed (ValueError "Unsupported database type"))]).
Proof.
  apply (main_without_connection api_scenario postgres_config []
           (ValueError "Unsupported database type") []).
  reflexivity.
Defined.

(** The events of the steps of the [try] block, record by record. *)
Lemma steps_etl_steps (P : event -> Prop) E h cfg con :
  (forall l m, inner_log m = true -> P (Log l m)) ->
  (forall s, P (Sleep s)) ->
  (forall f, P (Call f)) ->
  P (HttpGet TeamsUrl h) ->
  P (HttpGet (MatchesUrl 2025) h) ->
  (forall id, P (HttpGet (TeamUrl id) h)) ->
  P (DbExecute con teams_sql) ->
  P (DbExecute con matches_sql) ->
  P (DbExecute con players_sql) ->
  P (Log ERROR NoTeamsFetched) ->
  P (Log INFO RunComplete) ->
  emits P (etl_steps E cfg h con).
Proof.
  intros Plog Psleep Pcall Pt Pm Pp Pst Psm Psp Pabort Pdone.
  unfold etl_steps. apply emits_bind.
  { intro w.
    destruct (fetch_teams_events P Plog Psleep E h con
                (lower (database_type cfg)) w Pt Pst) as (rest & -> & HP).
    eexists. split; [reflexivity |]. now constructor. }
  intro df_teams. destruct (frame_empty df_teams); [now apply emits_emit |].
  apply emits_bind.
  { intro w.
    destruct (fetch_matches_events P Plog Psleep E h con
                (lower (database_type cfg)) 2025 w Pm Psm)
      as (rest & -> & HP).
    eexists. split; [reflexivity |]. now constructor. }
  intro df_matches. apply emits_bind; [| intro; now apply emits_emit].
  intro w.
  destruct (fetch_all_players_events P Plog Psleep E h df_teams con
              (lower (database_type cfg)) (requests_per_min cfg)
              (retries_per_team cfg) (sleep_between_retries cfg) w)
    as (rest & -> & HP); [intros; apply Pp | assumption |].
  eexists. split; [reflexivity |]. now constructor.
Qed.

Lemma except_log_emits (P : event -> Prop) E cfg h con w :
  emits P (etl_steps E cfg h con) ->
  (forall e, P (Log ERROR (EtlFailed e))) ->
  exists ev, except_log (etl_steps E cfg h con w) = w ++ ev /\ Forall P ev.
Proof.
  intros Hsteps Pfail. destruct (Hsteps w) as (ev & Hev & HP).
  destruct (etl_steps E cfg h con w) as [[[] | e] w1];
    cbn [snd] in Hev; subst w1; cbn [except_log].
  - now exists ev.
  - exists (ev ++ [Log ERROR (EtlFailed e)]). rewrite app_assoc.
    split; [reflexivity |]. apply Forall_app. split; [assumption |].
    now repeat constructor.
Qed.

(** X14. In every run of [main], each request carries the token of the
    configuration in its [X-Auth-Token] header and goes to the teams URL,
    to the matches URL of season 2025, or to the URL of a team; each
    database statement is one of the three that replace the teams, the
    matches and the players table, and runs on the connection that the
    run has acquired. *)
Theorem main_requests_and_statements E cfg w :
  exists new,
    snd (main E (Some cfg) w) = w ++ new
    /\ (forall u h, In (HttpGet u h) new -> run_request cfg u h)
    /\ (forall con sql,
           In (DbExecute con sql) new ->
           In (DbConnect con) new
           /\ In sql [teams_sql; matches_sql; players_sql]).
Proof.
  unfold main, bind, ret, try_block.
  destruct (get_db_connection_cases E cfg w) as [(e & ->) | (con & ->)].
  - cbn [except_log finally_block]. unfold ret. cbn [snd].
    exists [Log ERROR (EtlFailed e)]. split; [reflexivity |].
    split; [intros u h [H | []] | intros c sql [H | []]]; discriminate.
  - set (P := fun ev : event =>
                (forall u h, ev = HttpGet u h -> run_request cfg u h)
                /\ (forall c sql,
                       ev = DbExecute c sql ->
                       c = con
                       /\ In sql [teams_sql; matches_sql; players_sql])).
    assert (Hsteps : emits P
                       (etl_steps E cfg [("X-Auth-Token", api_token cfg)]
                          con)).
    { apply steps_etl_steps; unfold P; try (intros; split; discriminate);
        split; try discriminate.
      - intros u h H. injection H as <- <-. split; [reflexivity | now left].
      - intros u h H. injection H as <- <-.
        split; [reflexivity | right; now left].
      - intros u h H. injection H as <- <-.
        split; [reflexivity | right; right; now eexists].
      - intros c sql H. injection H as <- <-. split; [reflexivity | now left].
      - intros c sql H. injection H as <- <-.
        split; [reflexivity | right; now left].
      - intros c sql H. injection H as <- <-.
        split; [reflexivity | right; right; now left]. }
    destruct (except_log_emits P E cfg _ con
                (w ++ [DbConnect con; Log INFO (Connected con)]) Hsteps)
      as (ev & -> & HP); [intro; split; discriminate |].
    destruct (finally_block_closes E con
                ((w ++ [DbConnect con; Log INFO (Connected con)]) ++ ev))
      as (l & m & ->).
    cbn [snd].
    exists ([DbConnect con; Log INFO (Connected con)] ++ ev
              ++ [DbClose con; Log l m]).
    split; [now rewrite <- !app_assoc |].
    rewrite Forall_forall in HP. split.
    + intros u h Hin. apply in_app_or in Hin.
      destruct Hin as [[H | [H | []]] | Hin]; try discriminate.
      apply in_app_or in Hin. destruct Hin as [Hin | [H | [H | []]]];
        try discriminate.
      now apply (proj1 (HP _ Hin)).
    + intros c sql Hin. apply in_app_or in Hin.
      destruct Hin as [[H | [H | []]] | Hin]; try discriminate.
      apply in_app_or in Hin. destruct Hin as [Hin | [H | [H | []]]];
        try discriminate.
      destruct (proj2 (HP _ Hin) c sql eq_refl) as [-> Hsql].
      split; [now left | assumption].
Qed.

(** ** The verdict of a run and the order of its stages *)

Lemma verdicts_app (w1 w2 : list event) :
  verdicts (w1 ++ w2) = verdicts w1 ++ verdicts w2.
Proof. unfold verdicts. now rewrite logged_app, filter_app. Qed.

Lemma inner_event_reading ev :
  Forall inner_event ev -> stages ev = [] /\ verdicts ev = [].
Proof.
  induction 1 as [| e ev He _ [IHs IHv]]; [now split |].
  change (e :: ev) with ([e] ++ ev). rewrite stages_app, verdicts_app, IHs, IHv.
  destruct e as [| | | l m | | |]; cbn in He; try contradiction;
    try (now split).
  split; [reflexivity |]. unfold verdicts. cbn.
  destruct m; try discriminate; reflexivity.
Qed.

Lemma stage_event_reading ev :
  Forall stage_event ev ->
  verdicts ev = [] /\ closes ev = 0%nat /\ connects ev = 0%nat.
Proof.
  induction 1 as [| e ev He _ (IHv & IHc & IHn)]; [now repeat split |].
  change (e :: ev) with ([e] ++ ev).
  rewrite verdicts_app, closes_app, connects_app, IHv, IHc, IHn.
  destruct He as [He | (f & ->)]; [| now repeat split].
  destruct e as [| | | l m | | |]; cbn in He; try contradiction;
    try (now repeat split).
  repeat split. unfold verdicts. cbn.
  destruct m; try discriminate; reflexivity.
Qed.

Lemma inner_event_log l m : inner_log m = true -> inner_event (Log l m).
Proof. intro H. exact H. Qed.

(** A stage that was entered: its entry, then events of its body. *)
Lemma stage_entered f rest :
  Forall inner_event rest ->
  Forall stage_event (Call f :: rest) /\ stages (Call f :: rest) = [f].
Proof.
  intro Hrest. split.
  - constructor; [right; now exists f |].
    apply (Forall_impl _ (fun e He => or_introl He) Hrest).
  - change (Call f :: rest) with ([Call f] ++ rest).
    rewrite stages_app. now rewrite (proj1 (inner_event_reading rest Hrest)).
Qed.

(** The steps of the [try] block stop in one of three ways: an exception
    in one of the stages, the abort after the teams stage, the end. *)
Lemma etl_steps_cases E cfg h con w :
  exists ev0,
    Forall stage_event ev0
    /\ ((exists e,
            etl_steps E cfg h con w = (Raise e, w ++ ev0)
            /\ (stages ev0 = [FetchTeams]
                \/ stages ev0 = [FetchTeams; FetchMatches]
                \/ stages ev0 = [FetchTeams; FetchMatches; FetchAllPlayers]))
        \/ (etl_steps E cfg h con w
            = (Ret tt, w ++ ev0 ++ [Log ERROR NoTeamsFetched])
            /\ stages ev0 = [FetchTeams])
        \/ (etl_steps E cfg h con w
            = (Ret tt, w ++ ev0 ++ [Log INFO RunComplete])
            /\ stages ev0 = [FetchTeams; FetchMatches; FetchAllPlayers])).
Proof.
  unfold etl_steps, bind, logging, emit.
  destruct (fetch_teams_events inner_event inner_event_log (fun _ => I) E h
              con (lower (database_type cfg)) w I I) as (rest1 & Hw1 & H1).
  destruct (stage_entered FetchTeams rest1 H1) as [Hs1 Hst1].
  destruct (fetch_teams E h con (lower (database_type cfg)) w)
    as [[df_teams | e] w1]; cbn [snd] in Hw1; subst w1.
  2: { exists (Call FetchTeams :: rest1). split; [assumption |].
       left. exists e. split; [reflexivity | now left]. }
  destruct (frame_empty df_teams).
  { exists (Call FetchTeams :: rest1). split; [assumption |].
    right. left. split; [| assumption].
    now rewrite <- app_assoc. }
  destruct (fetch_matches_events inner_event inner_event_log (fun _ => I) E h
              con (lower (database_type cfg)) 2025
              (w ++ Call FetchTeams :: rest1) I I) as (rest2 & Hw2 & H2).
  destruct (stage_entered FetchMatches rest2 H2) as [Hs2 Hst2].
  assert (Hs12 : Forall stage_event
                   ((Call FetchTeams :: rest1) ++ Call FetchMatches :: rest2))
    by (apply Forall_app; now split).
  assert (Hst12 : stages ((Call FetchTeams :: rest1)
                            ++ Call FetchMatches :: rest2)
                  = [FetchTeams; FetchMatches])
    by (rewrite stages_app, Hst1, Hst2; reflexivity).
  destruct (fetch_matches E h con (lower (database_type cfg)) 2025 _)
    as [[df_matches | e] w2]; cbn [snd] in Hw2; subst w2.
  2: { exists ((Call FetchTeams :: rest1) ++ Call FetchMatches :: rest2).
       split; [assumption |]. left. exists e.
       split; [now rewrite <- app_assoc | right; now left]. }
  destruct (fetch_all_players_events inner_event inner_event_log (fun _ => I)
              E h df_teams con (lower (database_type cfg))
              (requests_per_min cfg) (retries_per_team cfg)
              (sleep_between_retries cfg)
              ((w ++ Call FetchTeams :: rest1) ++ Call FetchMatches :: rest2))
    as (rest3 & Hw3 & H3); [intros; exact I | exact I |].
  destruct (stage_entered FetchAllPlayers rest3 H3) as [Hs3 Hst3].
  exists (((Call FetchTeams :: rest1) ++ Call FetchMatches :: rest2)
            ++ Call FetchAllPlayers :: rest3).
  split; [apply Forall_app; now split |].
  assert (Hst : stages (((Call FetchTeams :: rest1)
                           ++ Call FetchMatches :: rest2)
                          ++ Call FetchAllPlayers :: rest3)
                = [FetchTeams; FetchMatches; FetchAllPlayers])
    by (rewrite stages_app, Hst12, Hst3; reflexivity).
  destruct (fetch_all_players E df_teams h con _ _ _ _ _)
    as [[df_players | e] w3]; cbn [snd] in Hw3; subst w3.
  - right. right. split; [| assumption].
    now rewrite <- !app_assoc.
  - left. exists e. split; [now rewrite <- !app_assoc | right; now right].
Qed.

Lemma finally_block_quiet E con w :
  exists l m,
    finally_block E (Some con) w = (Ret tt, w ++ [DbClose con; Log l m])
    /\ is_verdict m = false.
Proof.
  cbn [finally_block]. unfold bind, emit, logging, emit.
  destruct (db_close E con); rewrite <- app_assoc; now eexists _, _.
Qed.

(** X15. Every run of [main] returns with exactly one verdict in its
    records, and has entered the stages in the order teams, matches,
    players: "ETL run complete" after all three stages; "No teams fetched"
    after the teams stage alone; "ETL failed" after the stages entered
    until the exception, none of them exactly when no connection was
    acquired. *)
Theorem main_verdict E cfg w :
  exists new,
    main E (Some cfg) w = (Ret tt, w ++ new)
    /\ ((verdicts new = [RunComplete]
         /\ stages new = [FetchTeams; FetchMatches; FetchAllPlayers])
        \/ (verdicts new = [NoTeamsFetched] /\ stages new = [FetchTeams])
        \/ (exists e,
               verdicts new = [EtlFailed e]
               /\ (stages new = []
                   \/ stages new = [FetchTeams]
                   \/ stages new = [FetchTeams; FetchMatches]
                   \/ stages new
                      = [FetchTeams; FetchMatches; FetchAllPlayers])
               /\ (stages new = [] <-> connects new = 0%nat))).
Proof.
  unfold main, bind, ret, try_block.
  destruct (get_db_connection_cases E cfg w) as [(e & ->) | (con & ->)].
  - cbn [except_log finally_block]. unfold ret.
    exists [Log ERROR (EtlFailed e)]. split; [reflexivity |].
    right. right. exists e. repeat split. now left.
  - set (w1 := w ++ [DbConnect con; Log INFO (Connected con)]).
    destruct (etl_steps_cases E cfg [("X-Auth-Token", api_token cfg)] con w1)
      as (ev0 & Hev0 & Hcase).
    destruct (stage_event_reading ev0 Hev0) as (Hv0 & Hc0 & Hn0).
    destruct Hcase as [(e & -> & Hst) | [(-> & Hst) | (-> & Hst)]];
      cbn [except_log].
    + destruct (finally_block_quiet E con
                  ((w1 ++ ev0) ++ [Log ERROR (EtlFailed e)]))
        as (l & m & -> & Hm).
      exists ([DbConnect con; Log INFO (Connected con)] ++ ev0
                ++ [Log ERROR (EtlFailed e)] ++ [DbClose con; Log l m]).
      split; [unfold w1; now rewrite <- !app_assoc |].
      right. right. exists e.
      rewrite !verdicts_app, !stages_app, !connects_app, Hv0, Hn0.
      unfold verdicts at 1 3. cbn. rewrite Hm. cbn.
      rewrite app_nil_r. split; [reflexivity |]. split.
      * destruct Hst as [-> | [-> | ->]]; tauto.
      * split; [| discriminate].
        destruct Hst as [-> | [-> | ->]]; discriminate.
    + destruct (finally_block_quiet E con
                  (w1 ++ ev0 ++ [Log ERROR NoTeamsFetched]))
        as (l & m & -> & Hm).
      exists ([DbConnect con; Log INFO (Connected con)] ++ ev0
                ++ [Log ERROR NoTeamsFetched] ++ [DbClose con; Log l m]).
      split; [unfold w1; now rewrite <- !app_assoc |].
      right. left.
      rewrite !verdicts_app, !stages_app, Hv0, Hst.
      unfold verdicts at 1 3. cbn. rewrite Hm. now split.
    + destruct (finally_block_quiet E con
                  (w1 ++ ev0 ++ [Log INFO RunComplete]))
        as (l & m & -> & Hm).
      exists ([DbConnect con; Log INFO (Connected con)] ++ ev0
                ++ [Log INFO RunComplete] ++ [DbClose con; Log l m]).
      split; [unfold w1; now rewrite <- !app_assoc |].
      left.
      rewrite !verdicts_app, !stages_app, Hv0, Hst.
      unfold verdicts at 1 3. cbn. rewrite Hm. now split.
Qed.

(** ** The tag in the returned frame *)

Lemma has_dot_app a b : has_dot (a ++ b) = has_dot a || has_dot b.
Proof.
  induction a as [| c a IH]; [reflexivity |].
  cbn. now rewrite IH, orb_assoc.
Qed.

Lemma new_key_dotted ks k : ks <> "" -> has_dot (new_key ks k) = true.
Proof.
  intro Hne. unfold new_key.
  destruct (ks =? "")%string eqn:He; [apply String.eqb_eq in He; congruence |].
  rewrite has_dot_app. cbn. now rewrite orb_true_r.
Qed.

Lemma has_dot_nonempty ks : has_dot ks = true -> ks <> "".
Proof. intros H ->. discriminate. Qed.

Lemma dict_set_keys k v d x :
  In x (map fst (dict_set k v d)) -> x = k \/ In x (map fst d).
Proof.
  induction d as [| [k' v'] d IH]; cbn.
  - intros [<- | []]. now left.
  - destruct (k' =? k)%string eqn:Hk; cbn.
    + apply String.eqb_eq in Hk. subst k'. intros [<- | Hin]; tauto.
    + intros [<- | Hin]; [tauto |]. destruct (IH Hin); tauto.
Qed.

Lemma normalise_json_obj_cons k v fs ks acc :
  normalise_json (JObj ((k, v) :: fs)) ks acc
  = normalise_json (JObj fs) ks (normalise_json v (new_key ks k) acc).
Proof. reflexivity. Qed.

(** Under a key that contains the separator, or below an object with a
    non-empty key, flattening adds only keys that contain the separator. *)
Lemma normalise_json_keys v :
  forall ks acc x,
    (has_dot ks = true \/ (is_dict v = true /\ ks <> "")) ->
    In x (map fst (normalise_json v ks acc)) ->
    In x (map fst acc) \/ has_dot x = true.
Proof.
  induction v as [v Hleaf | fs IH] using json_fields_ind;
    intros ks acc x Hks Hin.
  - assert (Hdot : has_dot ks = true).
    { destruct Hks as [H | [H _]]; [assumption | congruence]. }
    assert (Heq : normalise_json v ks acc = dict_set ks v acc)
      by (destruct v; try reflexivity; discriminate).
    rewrite Heq in Hin. destruct (dict_set_keys _ _ _ _ Hin) as [-> | H];
      tauto.
  - assert (Hne : ks <> "").
    { destruct Hks as [H | [_ H]]; [now apply has_dot_nonempty | assumption]. }
    clear Hks. revert acc Hin.
    induction IH as [| [k v] fs Hv _ IHfs]; intros acc Hin;
      [left; exact Hin |].
    rewrite normalise_json_obj_cons in Hin.
    destruct (IHfs _ Hin) as [Hacc | Hdot]; [| now right].
    apply (Hv (new_key ks k) acc x); [| exact Hacc].
    left. now apply new_key_dotted.
Qed.

(** The flattened nested fields of a player without object under the
    empty key have keys that contain the separator. *)
Lemma nested_keys_dotted fs :
  (forall k v, In (k, v) fs -> is_dict v = true /\ k <> "") ->
  forall acc x,
    In x (map fst (normalise_json (JObj fs) "" acc)) ->
    In x (map fst acc) \/ has_dot x = true.
Proof.
  induction fs as [| [k v] fs IH]; intros Hfs acc x Hin; [now left |].
  rewrite normalise_json_obj_cons in Hin.
  destruct (IH (fun k' v' H => Hfs k' v' (or_intror H)) _ x Hin)
    as [Hacc | Hdot]; [| now right].
  destruct (Hfs k v (or_introl eq_refl)) as [Hd Hk].
  apply (normalise_json_keys v (new_key "" k) acc x); [| exact Hacc].
  right. split; [assumption |]. exact Hk.
Qed.

Lemma fold_dict_set_other k (l : list (string * json)) :
  forall d,
    ~ In k (map fst l) ->
    dict_get k (fold_left (fun d kv => dict_set (fst kv) (snd kv) d) l d)
    = dict_get k d.
Proof.
  induction l as [| [k' v'] l IH]; intros d Hnot; [reflexivity |].
  cbn [fold_left fst snd]. rewrite IH.
  - apply dict_get_set_other. intro Heq. apply Hnot. left. now subst.
  - intro Hin. apply Hnot. now right.
Qed.

Lemma dict_get_filter k (f : list (string * json)) v (keep : json -> bool) :
  dict_get k f = Some v -> keep v = true ->
  dict_get k (filter (fun kv => keep (snd kv)) f) = Some v.
Proof.
  induction f as [| [k' v'] f IH]; [discriminate |].
  cbn [dict_get filter snd]. destruct (k' =? k)%string eqn:Hk.
  - intros H Hkeep. injection H as ->. rewrite Hkeep. cbn. now rewrite Hk.
  - intros H Hkeep. destruct (keep v'); [cbn; rewrite Hk |]; now apply IH.
Qed.

(** A top-level field without separator in its name, holding a value that
    is not an object, is a cell of the flattened record. *)
Lemma normalise_json_ordered_top f k v :
  dict_get k f = Some v -> is_dict v = false -> has_dot k = false ->
  (forall k' v', In (k', v') f -> is_dict v' = true -> k' <> "") ->
  dict_get k (normalise_json_ordered f) = Some v.
Proof.
  intros Hget Hv Hk Hkeys. unfold normalise_json_ordered.
  rewrite fold_dict_set_other.
  - apply (dict_get_filter k f v (fun x => negb (is_dict x))); [assumption |].
    now rewrite Hv.
  - intro Hin.
    destruct (nested_keys_dotted
                (filter (fun kv => is_dict (snd kv)) f)) with (acc := @nil (string * json)) (x := k)
      as [[] | Hdot]; [| exact Hin | congruence].
    intros k' v' Hf. apply filter_In in Hf. destruct Hf as [Hf Hd].
    split; [exact Hd | now apply (Hkeys k' v')].
Qed.

Lemma tag_players_origin id :
  forall players l,
    tag_players id players = Ret l ->
    Forall (fun t => exists f, In (JObj f) players
                               /\ t = JObj (dict_set "team_id" id f)) l.
Proof.
  induction players as [| p players IH]; intros l Hl.
  - injection Hl as <-. constructor.
  - cbn in Hl. destruct p as [| | | | | f]; try discriminate.
    destruct (tag_players id players) as [tl | e]; [| discriminate].
    injection Hl as <-. constructor.
    + exists f. split; [now left | reflexivity].
    + apply (Forall_impl _ (fun t Ht =>
               match Ht with
               | ex_intro _ f0 (conj Hin Heq) =>
                   ex_intro _ f0 (conj (or_intror Hin) Heq)
               end) (IH tl eq_refl)).
Qed.

Lemma fetched_from_squad E h r d id re :
  fetched E h r d id re -> Forall (from_squad E id) (fst re).
Proof.
  intros (w & Hrun). unfold fetch_team_players in Hrun.
  destruct (fetch_team_players_loop_outcome E id h d (Z.to_nat r) 0 w)
    as [(new & Hloop & _)
       | [(body & pre & Hloop & _ & _ & _ & _ & Hok) | (l & m & Hloop & _)]];
    rewrite Hloop in Hrun; [| | discriminate].
  - injection Hrun as <- _. constructor.
  - injection Hrun as Htag _. unfold tag_squad in Htag.
    destruct body as [| | | | | fields]; try discriminate.
    destruct (dict_get "squad" fields) as [[| | | s | players | fs] |] eqn:Hsq;
      try discriminate.
    + destruct s; [| discriminate]. injection Htag as <-. constructor.
    + apply tag_players_origin in Htag.
      apply (Forall_impl _ (fun t Ht =>
               match Ht with
               | ex_intro _ f (conj Hin Heq) =>
                   ex_intro _ _ (ex_intro _ fields (ex_intro _ players
                     (ex_intro _ f (conj Hok (conj Hsq (conj Hin Heq))))))
               end) Htag).
    + destruct fs; [| discriminate]. injection Htag as <-. constructor.
    + injection Htag as <-. constructor.
Qed.

Lemma dict_set_In k v (d : list (string * json)) k' v' :
  In (k', v') (dict_set k v d) -> (k' = k /\ v' = v) \/ In (k', v') d.
Proof.
  induction d as [| [k0 v0] d IH]; cbn.
  - intros [H | []]. injection H as <- <-. now left.
  - destruct (k0 =? k)%string; cbn.
    + intros [H | Hin]; [injection H as <- <-; now left | tauto].
    + intros [H | Hin]; [tauto |]. destruct (IH Hin); tauto.
Qed.

(** The tag of a player of a squad is the [team_id] cell of its row. *)
Lemma from_squad_cell E id t :
  (forall n id' s body,
      http_get E n (TeamUrl id') = Responded s body -> squad_keys_ok body) ->
  is_dict id = false ->
  from_squad E id t ->
  exists f', t = JObj f' /\ cell "team_id" (normalise_json_ordered f') = id.
Proof.
  intros Hkeys Hid (n & fields & players & f & Hans & Hsq & Hin & ->).
  eexists. split; [reflexivity |]. unfold cell.
  rewrite (normalise_json_ordered_top _ "team_id" id); try reflexivity.
  - apply dict_get_set.
  - exact Hid.
  - intros k' v' Hin' Hd. apply dict_set_In in Hin'.
    destruct Hin' as [[_ ->] | Hin']; [congruence |].
    apply (Hkeys n id 200 (JObj fields) Hans fields players (JObj f)
             eq_refl Hsq Hin f k' v' eq_refl Hin' Hd).
Qed.

Lemma map_outcome_In {A B} (f : A -> outcome B) :
  forall l rs b,
    map_outcome f l = Ret rs -> In b rs -> exists a, In a l /\ f a = Ret b.
Proof.
  induction l as [| a l IH]; intros rs b Hrs Hin.
  - injection Hrs as <-. destruct Hin.
  - cbn in Hrs. destruct (f a) as [b0 | e] eqn:Hfa; [| discriminate].
    destruct (map_outcome f l) as [bs | e]; [| discriminate].
    injection Hrs as <-. destruct Hin as [<- | Hin].
    + exists a. split; [now left | assumption].
    + destruct (IH bs b eq_refl Hin) as (a' & Ha' & Hfa').
      exists a'. split; [now right | assumption].
Qed.

Lemma json_normalize_rows_In players df row :
  json_normalize (JArr players) = Ret df ->
  In row (records df) ->
  exists t, In t players /\ simple_json_normalize t = Ret row.
Proof.
  destruct players as [| p players]; cbn [json_normalize].
  - intro H. injection H as <-. intros [].
  - destruct (map_outcome simple_json_normalize (p :: players)) as [rs | e]
      eqn:Hrs; [| discriminate].
    intro H. injection H as <-. cbn [records frame_of].
    now apply map_outcome_In.
Qed.

Lemma first_occurrences_incl :
  forall rows earlier row,
    In row (first_occurrences earlier rows) -> In row (map snd rows).
Proof.
  induction rows as [| [k r] rows IH]; intros earlier row Hin;
    [destruct Hin |].
  cbn in Hin. apply in_app_or in Hin. destruct Hin as [Hin | Hin].
  - destruct (existsb (key_eqb k) earlier); [destruct Hin |].
    destruct Hin as [<- | []]. now left.
  - right. now apply (IH (earlier ++ [k])).
Qed.

Lemma drop_duplicates_incl c df df' row :
  drop_duplicates c df = Ret df' ->
  In row (records df') -> In row (records df).
Proof.
  intros Hdd Hin.
  destruct (drop_duplicates_spec c df df' Hdd)
    as [(_ & ->) | (_ & _ & keys & _ & _ & Hrec)]; [assumption |].
  rewrite Hrec in Hin. apply first_occurrences_incl in Hin.
  apply in_map_iff in Hin. destruct Hin as ([k r0] & <- & Hin).
  now apply in_combine_r in Hin.
Qed.

Lemma Forall2_In_r {A B} (P : A -> B -> Prop) (l : list A) (l' : list B) b :
  Forall2 P l l' -> In b l' -> exists a, In (a, b) (combine l l') /\ P a b.
Proof.
  induction 1 as [| x y l l' Hxy HF IH]; intros Hin; [destruct Hin |].
  destruct Hin as [-> | Hin].
  - exists x. split; [now left | assumption].
  - destruct (IH Hin) as (a & Ha & HP). exists a.
    split; [now right | assumption].
Qed.

(** X16. Let no player served by the API have a nested object under the
    empty key, and no identifier of the teams frame be an object.  Then
    every row of the frame that [fetch_all_players] returns has, in its
    [team_id] column, an identifier of the [id] column of the teams frame:
    the tag set by [fetch_team_players] goes unchanged through
    [json_normalize] and [drop_duplicates].  When the identifiers of the
    teams frame are pairwise different, that identifier is not in
    [failed_teams], whatever the API has answered to each attempt. *)
Theorem returned_rows_carry_team E df_teams h con db_type rpm r d w
    df_players failed_teams w' :
  fetch_all_players E df_teams h con db_type rpm r d w
  = (Ret (df_players, failed_teams), w') ->
  (forall n id s body,
      http_get E n (TeamUrl id) = Responded s body -> squad_keys_ok body) ->
  (forall ids id, column "id" df_teams = Ret ids -> In id ids ->
                  is_dict id = false) ->
  exists ids,
    column "id" df_teams = Ret ids
    /\ (forall row, In row (records df_players) ->
                    In (cell "team_id" row) ids)
    /\ (NoDup ids ->
        forall row, In row (records df_players) ->
                    ~ In (cell "team_id" row) failed_teams).
Proof.
  intros Hrun Hkeys Hids_ok. apply fetch_all_players_ret in Hrun.
  destruct Hrun as (ids & all_players & w1 & df & tail & _ & Hids & Hloop
                    & Hdf & Hdd & _).
  apply players_loop_ret in Hloop.
  destruct Hloop as (results & HF & Hall & Hfailed & _).
  cbn [fst snd app] in Hall, Hfailed. subst all_players failed_teams.
  assert (Hrow : forall row,
             In row (records df_players) ->
             exists id re,
               In (id, re) (combine ids results)
               /\ fst re <> [] /\ cell "team_id" row = id).
  { intros row Hin.
    apply (drop_duplicates_incl _ _ _ _ Hdd) in Hin.
    destruct (json_normalize_rows_In _ _ _ Hdf Hin) as (t & Ht & Hrow).
    apply in_flat_map in Ht. destruct Ht as (re & Hre & Ht).
    destruct (Forall2_In_r _ _ _ _ HF Hre) as (id & Hcomb & Hfetched).
    exists id, re. split; [assumption |]. split.
    - intro Hnil. rewrite Hnil in Ht. destruct Ht.
    - pose proof (fetched_from_squad E h r d id re Hfetched) as Hsq.
      rewrite Forall_forall in Hsq.
      destruct (from_squad_cell E id t Hkeys
                  (Hids_ok ids id Hids (in_combine_l _ _ _ _ Hcomb))
                  (Hsq t Ht)) as (f' & -> & Hcell).
      cbn in Hrow. injection Hrow as <-. exact Hcell. }
  exists ids. split; [assumption |]. split.
  - intros row Hin. destruct (Hrow row Hin) as (id & re & Hcomb & _ & ->).
    now apply in_combine_l in Hcomb.
  - intros Hnd row Hin Hfail.
    destruct (Hrow row Hin) as (id & re & Hcomb & Hne & Hcell).
    rewrite Hcell in Hfail. apply in_failed_of_inv in Hfail.
    destruct Hfail as (re' & Hcomb' & Hnil).
    apply Hne.
    now rewrite (combine_NoDup_eq ids results id re re' Hnd Hcomb Hcomb').
Qed.

Lemma returned_rows_carry_team_witness :
  exists ids,
    column "id" two_teams = Ret ids
    /\ (forall row,
           In row
             (records
                {| columns := ["id"; "team_id"; "contract.until"];
                   records := [[("id", JNum 7); ("team_id", JNum 1);
                                ("contract.until", JNum 2027)]] |}) ->
           In (cell "team_id" row) ids)
    /\ (NoDup ids ->
        forall row,
          In row
            (records
               {| columns := ["id"; "team_id"; "contract.until"];
                  records := [[("id", JNum 7); ("team_id", JNum 1);
                               ("contract.until", JNum 2027)]] |}) ->
          ~ In (cell "team_id" row) [JNum 2]).
Proof.
  apply (returned_rows_carry_team api_nested_player two_teams [] DuckDB
           "duckdb" 60%Q 3 2%Q []
           {| columns := ["id"; "team_id"; "contract.until"];
              records := [[("id", JNum 7); ("team_id", JNum 1);
                           ("contract.until", JNum 2027)]] |}
           [JNum 2]
           (snd (fetch_all_players api_nested_player two_teams [] DuckDB
                   "duckdb" 60 3 2 []))).
  - vm_compute. reflexivity.
  - intros n id s body Hans.
    assert (Hbody : body = JObj [("squad", JArr [nested_player])]
                    \/ body = JObj [("squad", JArr [])]).
    { cbn in Hans. destruct (Nat.even n); [discriminate |].
      destruct id as [| | [| [p | p |] |] | | |];
        injection Hans as _ <-; auto. }
    intros fields players p Hfields Hsq Hin f k v Hp Hkv Hd.
    destruct Hbody as [-> | ->]; injection Hfields as <-;
      cbn in Hsq; injection Hsq as <-; [| destruct Hin].
    destruct Hin as [<- | []]. injection Hp as <-.
    destruct Hkv as [H | [H | [H | []]]]; injection H as <- <-;
      discriminate.
  - intros ids id Hids Hin. injection Hids as <-.
    destruct Hin as [<- | [<- | []]]; reflexivity.
Defined.

(** ** From the teams payload to the identifiers *)

Lemma flattened_ids :
  forall teams rows ids,
    flattened teams rows ->
    Forall2 team_identifier teams ids ->
    map (cell "id") rows = ids
    /\ Forall (fun r => exists v, dict_get "id" r = Some v) rows.
Proof.
  intros teams rows ids HF. revert ids.
  induction HF as [| t r teams rows (f & -> & ->) _ IH]; intros ids Hids.
  - inversion Hids; subst. split; [reflexivity | constructor].
  - inversion Hids as [| ? id ? ids' (f' & Heq & Hget & Hd & Hkeys) Hrest];
      subst. injection Heq as <-.
    destruct (IH ids' Hrest) as [Hmap Hall].
    assert (Hcell : dict_get "id" (normalise_json_ordered f) = Some id).
    { apply normalise_json_ordered_top; try assumption; [reflexivity |].
      intros k' v' Hin Hdv. now apply (Hkeys f k' v' eq_refl). }
    split.
    + cbn [map]. unfold cell at 1. now rewrite Hcell, Hmap.
    + constructor; [now exists id | assumption].
Qed.

(** X17. When the teams request is answered 200 with a non-empty list of
    team objects, each with a top-level [id] that is not an object (and no
    nested object under the empty key), and the database accepts the
    statement, the frame that [fetch_teams] returns is not empty and its
    [id] column is the identifiers of the teams in the order of the
    payload: these are the identifiers over which [fetch_all_players]
    iterates. *)
Theorem fetch_teams_identifiers E h con db_type w k fields teams ids :
  answered_at E TeamsUrl w k (JObj fields) ->
  dict_get "teams" fields = Some (JArr teams) ->
  teams <> [] ->
  Forall2 team_identifier teams ids ->
  db_execute E con teams_sql = None ->
  exists df_teams w',
    fetch_teams E h con db_type w = (Ret df_teams, w')
    /\ frame_empty df_teams = false
    /\ column "id" df_teams = Ret ids
    /\ List.length (records df_teams) = List.length ids.
Proof.
  intros Hans Hteams Hne Hids Hdb.
  assert (Hobj : Forall (fun t => is_dict t = true) teams).
  { clear - Hids. induction Hids as [| t id ts ids0 (f & -> & _) _ IH];
      now constructor. }
  destruct (fetch_json_answered E TeamsUrl h (w ++ [Call FetchTeams]) k
              (JObj fields) (answered_after_call _ _ _ _ _ _ Hans))
    as (pre & Hrun & _).
  destruct (json_normalize_objects teams Hne Hobj) as (rows & Hdf & HF).
  destruct (flattened_ids teams rows ids HF Hids) as [Hmap Hcells].
  assert (Hcol : has_column "id" (frame_of rows) = true).
  { destruct rows as [| r0 rows0].
    - inversion HF; subst. congruence.
    - inversion Hcells as [| ? ? (v & Hv) _]; subst.
      apply (has_column_frame_of "id" (r0 :: rows0) r0 v);
        [now left | exact Hv]. }
  exists (frame_of rows).
  assert (Hret : exists w',
             fetch_teams E h con db_type w = (Ret (frame_of rows), w')).
  { unfold fetch_teams. unfold bind at 1, emit. unfold bind at 1.
    rewrite Hrun. unfold bind at 1, lift, present.
    assert (Htruthy : truthy (JObj fields) = true).
    { destruct fields; [discriminate | reflexivity]. }
    rewrite Htruthy. cbn [py_in]. rewrite Hteams.
    unfold bind at 1, lift. cbn [py_getitem]. rewrite Hteams.
    unfold bind at 1, lift. rewrite Hdf. unfold bind at 1.
    unfold db_write, con_execute, teams_sql in *. rewrite Hdb.
    destruct (db_type =? "duckdb")%string;
      [| destruct (db_type =? "snowflake")%string];
      unfold bind, logging, emit, ret; now eexists. }
  destruct Hret as (w' & Hret). exists w'. split; [exact Hret |].
  split; [| split].
  - unfold frame_empty. cbn [records frame_of].
    unfold has_column in Hcol.
    destruct (columns (frame_of rows)); [discriminate |].
    destruct rows; [| reflexivity].
    inversion HF; subst. congruence.
  - unfold column. rewrite Hcol. cbn [records frame_of]. now rewrite Hmap.
  - cbn [records frame_of]. rewrite <- Hmap. now rewrite length_map.
Qed.

Lemma fetch_teams_identifiers_witness :
  exists df_teams w',
    fetch_teams api_teams_payload test_headers DuckDB "duckdb" []
    = (Ret df_teams, w')
    /\ frame_empty df_teams = false
    /\ column "id" df_teams = Ret [JNum 57; JNum 58]
    /\ List.length (records df_teams) = List.length [JNum 57; JNum 58].
Proof.
  apply (fetch_teams_identifiers api_teams_payload test_headers DuckDB
           "duckdb" [] 1
           [("count", JNum 2); ("teams", JArr teams_payload)]
           teams_payload).
  - split; [lia |]. split; [| reflexivity].
    intros i Hi. cbn in Hi. lia.
  - reflexivity.
  - discriminate.
  - repeat constructor;
      (eexists; split; [reflexivity |]; split; [reflexivity |];
       split; [reflexivity |]);
      intros f k v Hf Hin Hd; injection Hf as <-;
      destruct Hin as [H | [H | [H | []]]]; injection H as <- <-;
      discriminate.
  - reflexivity.
Defined.
